(** * Quant-Utilities: CumSumFilter, ETFTrick and TimeSeriesEmbargoCV

  A shallow embedding of the three classes of the repository
  ([src/CumSumFilter.py], [src/ETFTrick.py], [src/TimeSeriesEmbargoCV.py])
  and the properties of them that the specification states.

  Python objects are records whose optional attributes are [option]
  fields ([hasattr] is [Some]); methods that mutate [self] return the new
  object; a raised exception is the [Raise] branch of [result].

  The numeric code is written once over an interface [Num] of the
  operations the source applies to its numbers, and read at two carriers:
  [float], Rocq's primitive IEEE 754 binary64 numbers (what NumPy's
  float64 and Python's float are), and [Q], exact rational arithmetic. *)

From Stdlib Require Import ZArith QArith Qabs Lqa List Bool Lia Sorted.
From Stdlib Require Import Floats.
Import ListNotations.

#[local] Set Warnings "-inexact-float".

(** ** Python results and exceptions *)

Module Py.

Inductive exn : Set :=
| ValueError
| KeyError
| IndexError
| AttributeError
| ZeroDivisionError
| OverflowError.

Inductive result (A : Type) : Type :=
| Ok (a : A)
| Raise (e : exn).

Arguments Ok {A} a.
Arguments Raise {A} e.

Definition bind {A B : Type} (c : result A) (k : A -> result B) : result B :=
  match c with
  | Ok a => k a
  | Raise e => Raise e
  end.

(** [len(X)] as a Python int. *)
Definition len {A : Type} (X : list A) : Z := Z.of_nat (length X).

(** [enumerate(xs)]: positions from 0, paired with the elements. *)
Definition enumerate {A : Type} (xs : list A) : list (nat * A) :=
  combine (seq 0 (length xs)) xs.

(** [range(k)] for a Python int [k]: empty when [k <= 0]. *)
Definition range (k : Z) : list Z :=
  map Z.of_nat (seq 0 (Z.to_nat k)).

(** [np.arange(a, b)] on integers: [a, a+1, ..., b-1], empty when [b <= a]. *)
Definition arange (a b : Z) : list Z :=
  map (fun k => a + Z.of_nat k)%Z (seq 0 (Z.to_nat (b - a))).

(** A Python int as a binary fraction with exponent 0; the mantissa is
    the whole integer, of any size. *)
Definition Z2SF (z : Z) : spec_float :=
  match z with
  | Z0 => S754_zero false
  | Zpos p => S754_finite false p 0
  | Zneg p => S754_finite true p 0
  end.

(** [int(x)] for a binary64 [x]: truncation towards zero; there is no
    integer for an infinity or a NaN. *)
Definition SF2Z (x : spec_float) : option Z :=
  match x with
  | S754_zero _ => Some 0%Z
  | S754_finite s m e =>
      let a := Z.shiftl (Zpos m) e in Some (if s then (- a)%Z else a)
  | S754_infinity _ | S754_nan => None
  end.

(** [int(n / d)] on Python ints. [n / d] is the binary64 number nearest
    to the exact quotient (ties to even): IEEE 754 division [SFdiv] of the
    two integers taken exactly. A quotient too large for a float is an
    [OverflowError]. [int] then truncates. *)
Definition int_truediv (n d : Z) : result Z :=
  if (d =? 0)%Z then Raise ZeroDivisionError
  else match SF2Z (SFdiv prec emax (Z2SF n) (Z2SF d)) with
       | Some q => Ok q
       | None => Raise OverflowError
       end.

(** [a // b] on Python ints: floor division. *)
Definition floordiv (a b : Z) : result Z :=
  if (b =? 0)%Z then Raise ZeroDivisionError else Ok (Z.div a b).

End Py.

Import Py.

Declare Scope py_scope.
Delimit Scope py_scope with py.
Notation "x <- c ;; k" := (Py.bind c (fun x => k))
(at level 61, c at next level, right associativity) : py_scope.
Open Scope py_scope.

(** ** The numbers of the source *)

Class Num (T : Type) : Type := {
zero : T;
one : T;
add : T -> T -> T;
sub : T -> T -> T;
mul : T -> T -> T;
div : T -> T -> T;
abs : T -> T;
ltb : T -> T -> bool;
leb : T -> T -> bool;
(** the literals [1e-05] and [1e-08], the defaults of [np.isclose] *)
rtol : T;
atol : T;
(** [np.isnan], and the value [np.nan] *)
isnan : T -> bool;
nan : T
}.

(** IEEE 754 binary64. Decimal literals are rounded to nearest, as Python
  reads them. *)
#[export] Instance float_Num : Num float := {|
zero := 0%float;
one := 1%float;
add := PrimFloat.add;
sub := PrimFloat.sub;
mul := PrimFloat.mul;
div := PrimFloat.div;
abs := PrimFloat.abs;
ltb := PrimFloat.ltb;
leb := PrimFloat.leb;
rtol := 1e-5%float;
atol := 1e-8%float;
isnan := PrimFloat.is_nan;
nan := PrimFloat.nan
|}.

Definition Qlt_bool (x y : Q) : bool := negb (Qle_bool y x).

(** Exact arithmetic. [Qdiv x 0] is [0], where binary64 gives an infinity
  or a NaN; statements over [Q] that divide say so. No rational is a
  NaN, so the field [nan] is never read. *)
#[export] Instance Q_Num : Num Q := {|
zero := 0%Q;
one := 1%Q;
add := Qplus;
sub := Qminus;
mul := Qmult;
div := Qdiv;
abs := Qabs;
ltb := Qlt_bool;
leb := Qle_bool;
rtol := (1 # 100000)%Q;
atol := (1 # 100000000)%Q;
isnan := fun _ => false;
nan := 0%Q
|}.

Section PyNum.
Context {T : Type} `{Num T}.

(** [a >= b] *)
Definition geb (a b : T) : bool := leb b a.

(** The builtin [max(a, b)]: [b] when [b > a], else [a]. *)
Definition py_max (a b : T) : T := if ltb a b then b else a.

(** The builtin [min(a, b)]: [b] when [b < a], else [a]. *)
Definition py_min (a b : T) : T := if ltb b a then b else a.

(** [xs.sum()]: accumulation from the left. That is NumPy's order on
    fewer than 8 entries; from 8 on it adds a float array pairwise, with
    the same result up to [==] in exact arithmetic. *)
Definition sum (xs : list T) : T := fold_left add xs zero.

(** [np.isclose(a, b)] with the default [rtol] and [atol], for a finite
    [b]: [abs(a - b) <= atol + rtol * abs(b)]. *)
Definition isclose (a b : T) : bool :=
  leb (abs (sub a b)) (add atol (mul rtol (abs b))).

(** [xs[idx]] for a list of positions [idx] (NumPy integer-array
    indexing): [IndexError] on a position out of range. *)
Fixpoint take {A : Type} (xs : list A) (idx : list nat) : result (list A) :=
  match idx with
  | [] => Ok []
  | i :: rest =>
      match nth_error xs i with
      | None => Raise IndexError
      | Some x => r <- take xs rest ;; Ok (x :: r)
      end
  end.
End PyNum.

(** Row and column labels of a pandas object. *)
Definition label : Set := Z.

(** ** CumSumFilter.py *)

Module CumSumFilter.
Section WithNum.
Context {T : Type} `{Num T}.

(** What [__init__] may be handed as [log_returns]; a DataFrame is given
    by its columns. *)
Inductive input : Type :=
| NdArray (values : list T)
| Series (index : list label) (values : list T)
| DataFrame (index : list label) (columns : list (list T))
| Other.

Record t : Type := mk {
  _index : option (list label);
  _data : list T;
  _h : T;
  _events : list nat
}.

Definition init (log_returns : input) (h : T) : result t :=
  match log_returns with
  | Other => Raise ValueError
  | Series idx values =>
      Ok {| _index := Some idx; _data := values; _h := h; _events := [] |}
  | DataFrame idx columns =>
      match columns with
      | [values] =>
          Ok {| _index := Some idx; _data := values; _h := h; _events := [] |}
      | _ => Raise ValueError
      end
  | NdArray values =>
      Ok {| _index := None; _data := values; _h := h; _events := [] |}
  end.

(** The loop state: [s_plus], [s_minus] and [self._events]. *)
Record acc : Type := mkacc {
  s_plus : T;
  s_minus : T;
  events : list nat
}.

(** One iteration of the [for] loop of [filter], at position [i] with
    value [v]. The two [if]s are sequential: the second one reads the
    accumulators the first one may have reset. *)
Definition step (h : T) (st : acc) (iv : nat * T) : acc :=
  let (i, v) := iv in
  let st1 := {| s_plus := py_max zero (add (s_plus st) v);
                s_minus := py_min zero (add (s_minus st) v);
                events := events st |} in
  let st2 := if geb (s_plus st1) h
             then {| s_plus := zero; s_minus := zero;
                     events := events st1 ++ [i] |}
             else st1 in
  if geb (abs (s_minus st2)) h
  then {| s_plus := zero; s_minus := zero; events := events st2 ++ [i] |}
  else st2.

Definition run (h : T) (data : list T) : acc :=
  fold_left (step h) (enumerate data)
            {| s_plus := zero; s_minus := zero; events := [] |}.

(** [filter()]: the object with [_events] replaced, and the list
    returned. *)
Definition filter (self : t) : t * list nat :=
  let ev := events (run (_h self) (_data self)) in
  ({| _index := _index self; _data := _data self; _h := _h self;
      _events := ev |}, ev).

Definition filtered_events (self : t) : result (list T) :=
  take (_data self) (_events self).

Definition events_index (self : t) : result (list nat) :=
  Ok (_events self).

Definition index (self : t) : result (list label) :=
  match _index self with
  | None => Raise KeyError
  | Some idx => Ok idx
  end.

End WithNum.
Arguments input T : clear implicits.
Arguments t T : clear implicits.
Arguments acc T : clear implicits.
End CumSumFilter.

(** ** ETFTrick.py *)

Module ETFTrick.
Section WithNum.
Context {T : Type} `{Num T}.

(** A 2-D array as the list of its rows. *)
Definition matrix : Type := list (list T).

(** What [__init__] may be handed as [prices]: a 2-D ndarray with its
    [shape[-1]], a DataFrame with its row and column labels, or an object
    of another type. *)
Inductive prices_input : Type :=
| PricesNdArray (ncols : nat) (rows : matrix)
| PricesDataFrame (index columns : list label) (rows : matrix)
| PricesOther.

(** What it may be handed as [weights]: a 1-D ndarray, a Series, or an
    object of another type. *)
Inductive weights_input : Type :=
| WeightsNdArray (values : list T)
| WeightsSeries (index : list label) (values : list T)
| WeightsOther.

(** [type(prices)] *)
Inductive kind : Set := KNdArray | KDataFrame.

(** The [UserWarning]s of the two [warnings.warn] calls of [__init__],
    with the numbers their messages print. Warnings that NumPy itself
    issues during the division are not recorded. *)
Inductive warning : Type :=
| WeightsNormalized (total : T) (new_weights : list T)
| SumNotOne (total : T).

Record t : Type := mk {
  _prices_type : kind;
  _prices : matrix;
  _ncols : nat;
  _columns_names : option (list label);
  _index : option (list label);
  _weights : list T;
  _returns : option matrix;
  _cumulative_returns : option matrix;
  _etf_returns : option (list T);
  _etf_cumulative_returns : option (list T)
}.

(** The checks and the normalisation of [__init__], once the containers
    are unpacked. *)
Definition init_checked (k : kind) (rows : matrix) (ncols : nat)
    (names idx : option (list label)) (weights : list T)
    (normalize_weights : bool) : result (t * list warning) :=
  if negb (length weights =? ncols)%nat then Raise ValueError
  else
    let total_weights := sum weights in
    let '(w, warns) :=
      if negb (isclose total_weights one) then
        if normalize_weights then
          let w := map (fun x => div x total_weights) weights in
          (w, [WeightsNormalized total_weights w])
        else (weights, [SumNotOne total_weights])
      else (weights, [])
    in
    Ok ({| _prices_type := k; _prices := rows; _ncols := ncols;
           _columns_names := names; _index := idx; _weights := w;
           _returns := None; _cumulative_returns := None;
           _etf_returns := None; _etf_cumulative_returns := None |},
        warns).

Definition init (prices : prices_input) (weights : weights_input)
    (normalize_weights : bool) : result (t * list warning) :=
  match prices with
  | PricesOther => Raise ValueError
  | PricesNdArray ncols rows =>
      match weights with
      | WeightsOther => Raise ValueError
      | WeightsNdArray w | WeightsSeries _ w =>
          init_checked KNdArray rows ncols None None w normalize_weights
      end
  | PricesDataFrame idx columns rows =>
      match weights with
      | WeightsOther => Raise ValueError
      | WeightsNdArray w | WeightsSeries _ w =>
          init_checked KDataFrame rows (length columns)
                       (Some columns) (Some idx) w normalize_weights
      end
  end.

(** Elementwise operation on two rows of one length. *)
Definition map2 (f : T -> T -> T) (r1 r2 : list T) : list T :=
  map (fun pq => f (fst pq) (snd pq)) (combine r1 r2).

(** [prices[1:] / prices[:-1] - 1] *)
Definition simple_returns (prices : matrix) : matrix :=
  map (fun rows => map2 (fun p q => sub (div p q) one) (fst rows) (snd rows))
      (combine (tl prices) (removelast prices)).

(** [np.cumprod(xs)] on a 1-D array: [out[0] = xs[0]],
    [out[t] = out[t-1] * xs[t]]. *)
Fixpoint cumprod_from (prev : T) (xs : list T) : list T :=
  match xs with
  | [] => []
  | x :: rest => let p := mul prev x in p :: cumprod_from p rest
  end.

Definition cumprod (xs : list T) : list T :=
  match xs with
  | [] => []
  | x :: rest => x :: cumprod_from x rest
  end.

(** [np.cumprod(m, axis=0)]: the running product down each column. *)
Fixpoint cumprod_rows_from (prev : list T) (m : matrix) : matrix :=
  match m with
  | [] => []
  | r :: rest => let p := map2 mul prev r in p :: cumprod_rows_from p rest
  end.

Definition cumprod_rows (m : matrix) : matrix :=
  match m with
  | [] => []
  | r :: rest => r :: cumprod_rows_from r rest
  end.

(** [DataFrame.cumprod()] (pandas, [skipna=True]) on a float frame:
    the NaN entries are set to 1.0, the running product is taken down
    each column, and NaN is put back where it was. *)
Definition mask_nan (r : list T) : list T :=
  map (fun x => if isnan x then one else x) r.

Definition restore_nan (orig res : list T) : list T :=
  map2 (fun x p => if isnan x then nan else p) orig res.

Definition cumprod_rows_skipna (m : matrix) : matrix :=
  map (fun rows => restore_nan (fst rows) (snd rows))
      (combine m (cumprod_rows (map mask_nan m))).

(** [m @ w]: each row dotted with [w], the products added from the left
    (on binary64 the order of a BLAS dot product may differ in the last
    bit). *)
Definition matvec (m : matrix) (w : list T) : list T :=
  map (fun r => sum (map2 mul r w)) m.

Definition plus_one (xs : list T) : list T := map (fun x => add x one) xs.

Definition fit (self : t) : t :=
  let returns := simple_returns (_prices self) in
  let cumulative_returns :=
    match _prices_type self with
    | KDataFrame => cumprod_rows_skipna (map plus_one returns)
    | KNdArray => cumprod_rows (map plus_one returns)
    end in
  let etf_returns := matvec returns (_weights self) in
  let etf_cumulative_returns := cumprod (plus_one etf_returns) in
  {| _prices_type := _prices_type self; _prices := _prices self;
     _ncols := _ncols self; _columns_names := _columns_names self;
     _index := _index self; _weights := _weights self;
     _returns := Some returns;
     _cumulative_returns := Some cumulative_returns;
     _etf_returns := Some etf_returns;
     _etf_cumulative_returns := Some etf_cumulative_returns |}.

(** What an accessor hands back: the bare array, or the pandas object
    built around it. *)
Inductive out1 : Type :=
| Array1 (values : list T)
| Series1 (index : list label) (values : list T).

Inductive out2 : Type :=
| Array2 (rows : matrix)
| Frame2 (index columns : list label) (rows : matrix).

(** [self._index[1:]] and [self._columns_names]; reading an attribute
    that was never set is an [AttributeError]. *)
Definition index_tail (self : t) : result (list label) :=
  match _index self with
  | Some idx => Ok (tl idx)
  | None => Raise AttributeError
  end.

Definition names (self : t) : result (list label) :=
  match _columns_names self with
  | Some c => Ok c
  | None => Raise AttributeError
  end.

Definition series_view (self : t) (data : list T) : result out1 :=
  match _prices_type self with
  | KDataFrame => idx <- index_tail self ;; Ok (Series1 idx data)
  | KNdArray => Ok (Array1 data)
  end.

Definition frame_view (self : t) (data : matrix) : result out2 :=
  match _prices_type self with
  | KDataFrame =>
      idx <- index_tail self ;; c <- names self ;; Ok (Frame2 idx c data)
  | KNdArray => Ok (Array2 data)
  end.

Definition etf_returns (self : t) : result out1 :=
  match _etf_returns self with
  | None => Raise KeyError
  | Some d => series_view self d
  end.

Definition etf_cumulative_returns (self : t) : result out1 :=
  match _etf_cumulative_returns self with
  | None => Raise KeyError
  | Some d => series_view self d
  end.

Definition returns (self : t) : result out2 :=
  match _returns self with
  | None => Raise KeyError
  | Some d => frame_view self d
  end.

Definition cumulative_returns (self : t) : result out2 :=
  match _cumulative_returns self with
  | None => Raise KeyError
  | Some d => frame_view self d
  end.


End WithNum.
Arguments matrix T : clear implicits.
Arguments prices_input T : clear implicits.
Arguments weights_input T : clear implicits.
Arguments warning T : clear implicits.
Arguments t T : clear implicits.
Arguments out1 T : clear implicits.
Arguments out2 T : clear implicits.
End ETFTrick.

(** ** TimeSeriesEmbargoCV.py *)

Module TimeSeriesEmbargoCV.

(** A constructor argument: a Python int, or anything else. *)
Inductive arg : Set :=
| Int (z : Z)
| NotInt.

Record t : Set := mk {
  n_splits : Z;
  embargo_size : Z
}.

Definition init (cv embargo : arg) : result t :=
  match cv with
  | NotInt => Raise ValueError
  | Int c =>
      match embargo with
      | NotInt => Raise ValueError
      | Int e => Ok {| n_splits := c; embargo_size := e |}
      end
  end.

Definition get_n_splits {A : Type} (self : t) (X : list A) : result Z :=
  let n_samples := len X in
  fold_size <- int_truediv n_samples (n_splits self) ;;
  n_possible_splits <-
    floordiv (n_samples - embargo_size self) fold_size ;;
  Ok (Z.min (n_splits self) n_possible_splits).

(** A yielded pair [(train_indices, test_indices)]. *)
Definition fold : Set := (list Z * list Z)%type.

(** The [for] loop of [split] over the remaining values of [i]; [break]
    ends the generator. *)
Fixpoint split_loop (self : t) (n_samples fold_size : Z) (ixs : list Z)
    : list fold :=
  match ixs with
  | [] => []
  | i :: rest =>
      let train_start_idx := (i * fold_size)%Z in
      let train_end_idx := (i * fold_size + fold_size)%Z in
      let test_start_idx := (train_end_idx + embargo_size self)%Z in
      let test_end_idx :=
        (test_start_idx + fold_size - embargo_size self)%Z in
      if (test_end_idx >? n_samples)%Z then []
      else
        (arange train_start_idx train_end_idx,
         arange test_start_idx test_end_idx)
          :: split_loop self n_samples fold_size rest
  end.

(** [split(X)]: the pairs the generator yields, in order, or the
    exception its first step raises. *)
Definition split {A : Type} (self : t) (X : list A) : result (list fold) :=
  let n_samples := len X in
  fold_size <- int_truediv n_samples (n_splits self) ;;
  n_actual_splits <- get_n_splits self X ;;
  Ok (split_loop self n_samples fold_size (range n_actual_splits)).

End TimeSeriesEmbargoCV.

(** * The vocabulary of the properties *)

Section SplitterVocabulary.
Import TimeSeriesEmbargoCV.
Open Scope Z_scope.

(** The pair the loop builds at fold index [i]. *)
Definition fold_at (self : t) (fold_size i : Z) : fold :=
  (arange (i * fold_size) (i * fold_size + fold_size),
   arange (i * fold_size + fold_size + embargo_size self)
          (i * fold_size + fold_size + embargo_size self
           + fold_size - embargo_size self)).

(** Every range of every yielded pair, in the order yielded. *)
Definition ranges_of (folds : list fold) : list (list Z) :=
  flat_map (fun f => [fst f; snd f]) folds.

Definition disjoint (r s : list Z) : Prop :=
  forall x, In x r -> ~ In x s.

Definition pairwise_disjoint (rs : list (list Z)) : Prop :=
  forall i j r s, i <> j ->
    nth_error rs i = Some r -> nth_error rs j = Some s -> disjoint r s.

(** [z] with the sign bit [sx]. *)
Definition signed (sx : bool) (z : Z) : Z := if sx then - z else z.

End SplitterVocabulary.

Section FilterVocabulary.
Import CumSumFilter.
Open Scope nat_scope.

(** Consecutive elements increase strictly. *)
Definition strictly_increasing (l : list nat) : Prop := Sorted Nat.lt l.

(** Strictly increasing, with every element below [n]. *)
Definition below (n : nat) (l : list nat) : Prop :=
  StronglySorted Nat.lt l /\ Forall (fun e => e < n) l.

(** Each position twice, in order: [s, s, s+1, s+1, ...]. *)
Definition doubled (s n : nat) : list nat :=
  flat_map (fun i => [i; i]) (seq s n).

Section WithNum.
Context {T : Type} `{Num T}.

(** The loop of [filter] from position [s] on. *)
Definition run_from (h : T) (s : nat) (data : list T) (st : acc T) : acc T :=
  fold_left (step h) (combine (seq s (length data)) data) st.

End WithNum.

(** The scenario of the specification: [np.array([0.1, 0.1, 0.1, -0.5,
    0.4, 0.4])] and [h = 0.3]. *)
Definition scenario : CumSumFilter.t float :=
  {| _index := None;
     _data := [0.1; 0.1; 0.1; -0.5; 0.4; 0.4]%float;
     _h := 0.3%float;
     _events := [] |}.

End FilterVocabulary.

Section EtfVocabulary.
Import ETFTrick.
Open Scope nat_scope.

Section WithNum.
Context {T : Type} `{Num T}.

(** The product of [f 0], ..., [f t], taken from the left. *)
Fixpoint prod_upto (f : nat -> T) (t : nat) : T :=
  match t with
  | 0 => f 0
  | S t' => mul (prod_upto f t') (f t)
  end.

(** The same product continued from [prev]. *)
Fixpoint prod_from (prev : T) (f : nat -> T) (t : nat) : T :=
  match t with
  | 0 => mul prev (f 0)
  | S t' => mul (prod_from prev f t') (f t)
  end.

(** A matrix whose rows all have [N] entries. *)
Definition rectangular (N : nat) (m : matrix T) : Prop :=
  Forall (fun r => length r = N) m.

(** A matrix without a NaN entry. *)
Definition nan_free (m : matrix T) : Prop :=
  Forall (Forall (fun x => isnan x = false)) m.

End WithNum.

(** The product of [f 0], ..., [f t] in exact arithmetic. *)
Definition Qprod (f : nat -> Q) (t : nat) : Q :=
  fold_right Qmult 1%Q (map f (seq 0 (S t))).

End EtfVocabulary.

(** * Further vocabulary *)

Section FilterVocabularyMore.
Open Scope nat_scope.

(** Positions from [lo] up to, not including, [hi], in non-decreasing
    order. *)
Definition within (lo hi : nat) (l : list nat) : Prop :=
  StronglySorted le l /\ Forall (fun e => lo <= e < hi) l.

(** The sum of the absolute values, in exact arithmetic. *)
Definition Qsum_abs (data : list Q) : Q :=
  fold_right (fun v a => Qabs v + a)%Q 0%Q data.

(** A float that is a zero of either sign. *)
Definition float_is_zero (v : float) : Prop := v = 0%float \/ v = (-0)%float.

End FilterVocabularyMore.

Section EtfVocabularyMore.
Import ETFTrick.
Context {T : Type} `{Num T}.

(** The values of an accepted weights argument. *)
Definition weights_values (weights : weights_input T) : option (list T) :=
  match weights with
  | WeightsNdArray w | WeightsSeries _ w => Some w
  | WeightsOther => None
  end.

(** The rows and [shape[-1]] of an accepted prices argument. *)
Definition prices_shape (prices : prices_input T) : option (matrix T * nat) :=
  match prices with
  | PricesNdArray ncols rows => Some (rows, ncols)
  | PricesDataFrame _ columns rows => Some (rows, length columns)
  | PricesOther => None
  end.

End EtfVocabularyMore.

(** * The binary64 quotient of two ints *)

Section FloatQuotient.
Open Scope Z_scope.

Lemma digits2_pos_bounds (p : positive) :
  2 ^ (Zpos (digits2_pos p) - 1) <= Zpos p < 2 ^ Zpos (digits2_pos p).
Proof.
  induction p as [p IH | p IH |]; cbn [digits2_pos].
  - rewrite Pos2Z.inj_succ. replace (Z.succ (Zpos (digits2_pos p)) - 1)
      with (Z.succ (Zpos (digits2_pos p) - 1)) by lia.
    rewrite !Z.pow_succ_r by lia. lia.
  - rewrite Pos2Z.inj_succ. replace (Z.succ (Zpos (digits2_pos p)) - 1)
      with (Z.succ (Zpos (digits2_pos p) - 1)) by lia.
    rewrite !Z.pow_succ_r by lia. lia.
  - cbn. lia.
Qed.

Lemma Zdigits2_bounds (m : Z) :
  0 < m -> 2 ^ (Zdigits2 m - 1) <= m < 2 ^ Zdigits2 m.
Proof.
  destruct m as [|p|p]; try lia. intros _. apply digits2_pos_bounds.
Qed.

Lemma Zdigits2_nonneg (m : Z) : 0 <= Zdigits2 m.
Proof. destruct m; cbn; lia. Qed.

(** digits are determined by the power-of-two bracket *)
Lemma Zdigits2_le (m k : Z) : 0 <= k -> 0 <= m < 2 ^ k -> Zdigits2 m <= k.
Proof.
  intros Hk [H0 Hm]. destruct (Z.eq_dec m 0) as [->|Hne]; [cbn; lia|].
  pose proof (Zdigits2_bounds m ltac:(lia)) as [Hlo _].
  destruct (Z_le_gt_dec (Zdigits2 m) k) as [|Hgt]; [assumption|].
  assert (2 ^ k <= 2 ^ (Zdigits2 m - 1)) by (apply Z.pow_le_mono_r; lia).
  lia.
Qed.

Lemma Zdigits2_ge (m k : Z) : 0 <= k -> 2 ^ k <= m -> k + 1 <= Zdigits2 m.
Proof.
  intros Hk Hm. assert (0 < m) by (pose proof (Z.pow_pos_nonneg 2 k); lia).
  pose proof (Zdigits2_bounds m H) as [_ Hhi].
  destruct (Z_le_gt_dec (k + 1) (Zdigits2 m)) as [|Hgt]; [assumption|].
  pose proof (Zdigits2_nonneg m).
  assert (2 ^ Zdigits2 m <= 2 ^ k) by (apply Z.pow_le_mono_r; lia).
  lia.
Qed.

Lemma floor_div_pow (n d t : Z) :
  0 < d -> 0 <= t -> (n * 2 ^ t / d) / 2 ^ t = n / d.
Proof.
  intros Hd Ht. assert (0 < 2 ^ t) by (apply Z.pow_pos_nonneg; lia).
  rewrite Z.div_div by lia.
  rewrite Z.div_mul_cancel_r by lia. reflexivity.
Qed.

(** Rounding the scaled quotient up by one unit in the last place does
    not reach the next integer. *)
Lemma round_keeps_floor (n d t q1 m1 : Z) :
  0 < d -> 0 <= n < 2 ^ 53 -> 0 <= t ->
  q1 = n * 2 ^ t / d ->
  2 ^ 52 <= q1 \/ 53 < t ->
  q1 < 2 ^ 53 ->
  m1 = q1 \/ (m1 = q1 + 1 /\ d <= 2 * (n * 2 ^ t - q1 * d)) ->
  m1 / 2 ^ t = n / d.
Proof.
  intros Hd Hn Ht Hq Hnorm Hq53 Hm.
  assert (HP : 0 < 2 ^ t) by (apply Z.pow_pos_nonneg; lia).
  pose proof (floor_div_pow n d t Hd Ht) as Hfl. rewrite <- Hq in Hfl.
  destruct Hm as [-> | [-> Hup]]; [exact Hfl|].
  rewrite <- Hfl.
  set (P := 2 ^ t) in *.
  pose proof (Z.div_mod q1 P ltac:(lia)) as Hdm.
  pose proof (Z.mod_pos_bound q1 P HP) as Hmod.
  set (Q := q1 / P) in *. set (rho := q1 mod P) in *.
  assert (Hr : 0 <= n * P - q1 * d < d).
  { pose proof (Z.div_mod (n * P) d ltac:(lia)) as E.
    pose proof (Z.mod_pos_bound (n * P) d Hd) as B.
    rewrite <- Hq in E. lia. }
  assert (Hq0 : 0 <= q1) by (rewrite Hq; apply Z.div_pos; nia).
  assert (HQ0 : 0 <= Q) by (apply Z.div_pos; lia).
  destruct (Z.eq_dec rho (P - 1)) as [Erho|Nrho].
  - exfalso.
    assert (E1 : q1 + 1 = (Q + 1) * P) by lia.
    set (r1 := n * P - q1 * d) in *.
    assert (E2 : d - r1 = P * ((Q + 1) * d - n)) by (unfold r1; nia).
    assert (Hk : 1 <= (Q + 1) * d - n) by nia.
    assert (HdP : 2 * P <= d) by nia.
    destruct Hnorm as [Hnorm | Hnorm].
    + assert (2 ^ 53 = 2 * 2 ^ 52) by reflexivity. nia.
    + assert (2 ^ 53 < P).
      { unfold P. apply Z.pow_lt_mono_r; lia. }
      nia.
  - symmetry. apply (Z.div_unique (q1 + 1) P Q (rho + 1)); lia.
Qed.

Lemma fexp64 (e : Z) : fexp prec emax e = Z.max (e - 53) (-1074).
Proof. reflexivity. Qed.

Lemma shr_1_spec (m : Z) (r s : bool) :
  0 <= m ->
  shr_1 {| shr_m := m; shr_r := r; shr_s := s |}
  = {| shr_m := m / 2; shr_r := Z.odd m; shr_s := r || s |}.
Proof.
  intros Hm. rewrite <- Z.div2_div.
  destruct m as [|[p|p|]|p]; try lia; reflexivity.
Qed.

Lemma shr_at_most_one (mrs : shr_record) (e sh : Z) :
  sh <= 1 ->
  shr mrs e sh = if sh =? 1 then (shr_1 mrs, e + 1) else (mrs, e).
Proof.
  intros Hsh. destruct sh as [|p|p]; try reflexivity.
  assert (p = 1%positive) by lia. subst p. reflexivity.
Qed.

Lemma loc_of_record_of_loc (m : Z) (l : location) :
  loc_of_shr_record (shr_record_of_loc m l) = l.
Proof. destruct l as [|[ | | ]]; reflexivity. Qed.

Lemma shr_m_record_of_loc (m : Z) (l : location) :
  shr_m (shr_record_of_loc m l) = m.
Proof. destruct l as [|[ | | ]]; reflexivity. Qed.

Lemma round_nearest_even_cases (m : Z) (l : location) :
  round_nearest_even m l = m
  \/ (round_nearest_even m l = m + 1
      /\ (l = loc_Inexact Gt \/ l = loc_Inexact Eq)).
Proof.
  destruct l as [|[ | | ]]; cbn; auto.
  destruct (Z.even m); auto.
Qed.

Lemma new_location_up (d r : Z) :
  0 < d -> 0 <= r < d ->
  new_location d r = loc_Inexact Gt \/ new_location d r = loc_Inexact Eq ->
  d <= 2 * r.
Proof.
  intros Hd Hr. unfold new_location, new_location_even, new_location_odd.
  destruct (Z.even d); destruct (Z.eqb_spec r 0) as [E|NE];
    try (intros [H|H]; discriminate).
  - destruct (Z.compare_spec (2 * r) d) as [Hc|Hc|Hc]; intros [H|H];
      try discriminate; lia.
  - destruct (Z.compare_spec (2 * r + 1) d) as [Hc|Hc|Hc]; intros [H|H];
      try discriminate; lia.
Qed.

Lemma shiftl_half (m e : Z) :
  Z.even m = true -> Z.shiftl (m / 2) (e + 1) = Z.shiftl m e.
Proof.
  intros Hev. apply Z.even_spec in Hev. destruct Hev as [h ->].
  rewrite (Z.mul_comm 2 h), Z.div_mul by lia.
  replace (h * 2) with (Z.shiftl h 1) by (rewrite Z.shiftl_mul_pow2; lia).
  rewrite Z.shiftl_shiftl by lia. f_equal. lia.
Qed.

Lemma shiftl_neg (m t : Z) : 0 <= t -> Z.shiftl m (- t) = m / 2 ^ t.
Proof.
  intros Ht. rewrite Z.shiftl_opp_r. now apply Z.shiftr_div_pow2.
Qed.

(** The value, truncated to an integer, of the binary64 rounding of
    [n / d], from the scaled quotient [q = n * 2^s / d] and the location
    of the remainder. *)
Lemma binary_round_aux_trunc (sx : bool) (n d s : Z) :
  0 < d -> 0 <= n < 2 ^ 53 -> 1 <= s <= 1074 ->
  n * 2 ^ s / d < 2 ^ 54 ->
  2 ^ 52 <= n * 2 ^ s / d \/ s = 1074 ->
  SF2Z (binary_round_aux prec emax sx (n * 2 ^ s / d) (- s)
          (new_location d ((n * 2 ^ s) mod d)))
  = Some (signed sx (n / d)).
Proof.
  intros Hd Hn Hs Hq54 Hnorm.
  set (q := n * 2 ^ s / d) in *.
  set (r := (n * 2 ^ s) mod d).
  assert (HP : 0 < 2 ^ s) by (apply Z.pow_pos_nonneg; lia).
  assert (Hq0 : 0 <= q) by (apply Z.div_pos; nia).
  assert (Hr : 0 <= r < d) by (apply Z.mod_pos_bound; lia).
  assert (Hqr : n * 2 ^ s = d * q + r) by (apply Z.div_mod; lia).
  unfold binary_round_aux, shr_fexp. rewrite !fexp64.
  (* first shift *)
  assert (Hdq : Zdigits2 q <= 54) by (apply Zdigits2_le; lia).
  pose proof (Zdigits2_nonneg q) as Hdq0.
  set (sh := Z.max (Zdigits2 q + - s - 53) (-1074) - - s).
  assert (Hsh : sh <= 1) by lia.
  rewrite (shr_at_most_one _ _ sh Hsh).
  assert (exists q1 l1 e1 t,
             (if sh =? 1
              then (shr_1 (shr_record_of_loc q (new_location d r)), - s + 1)
              else (shr_record_of_loc q (new_location d r), - s))
             = (shr_record_of_loc q1 l1, e1)
             /\ e1 = - t /\ 0 <= t <= 1074
             /\ q1 = n * 2 ^ t / d
             /\ (2 ^ 52 <= q1 \/ 53 < t) /\ 0 <= q1 < 2 ^ 53
             /\ (l1 = loc_Inexact Gt \/ l1 = loc_Inexact Eq ->
                 d <= 2 * (n * 2 ^ t - q1 * d)))
    as (q1 & l1 & e1 & t & -> & He1 & Ht & Hq1 & Hn1 & Hq1b & Hup).
  { destruct (Z.eqb_spec sh 1) as [E1|N1].
    - (* one shift: q has 54 digits *)
      assert (Hd54 : Zdigits2 q = 54) by lia.
      assert (Hq53 : 2 ^ 53 <= q).
      { destruct (Z.eq_dec q 0) as [E0|N0]; [rewrite E0 in Hd54; cbn in Hd54; lia|].
        pose proof (Zdigits2_bounds q ltac:(lia)) as [Hlo _].
        rewrite Hd54 in Hlo. exact Hlo. }
      assert (Hs2 : 2 ^ s = 2 ^ (s - 1) * 2).
      { replace (2 ^ s) with (2 ^ Z.succ (s - 1)) by (f_equal; lia).
        rewrite Z.pow_succ_r by lia. lia. }
      assert (Hq1 : q / 2 = n * 2 ^ (s - 1) / d).
      { unfold q. rewrite Z.div_div by lia. rewrite Hs2.
        rewrite Z.mul_assoc, Z.div_mul_cancel_r by lia. reflexivity. }
      exists (q / 2),
        (loc_of_shr_record
           (shr_1 (shr_record_of_loc q (new_location d r)))),
        (- s + 1), (s - 1).
      assert (Hrec : shr_1 (shr_record_of_loc q (new_location d r))
                     = shr_record_of_loc (q / 2)
                         (loc_of_shr_record
                            (shr_1 (shr_record_of_loc q (new_location d r))))).
      { destruct (new_location d r) as [|[ | | ]]; cbn [shr_record_of_loc];
          rewrite shr_1_spec by lia; destruct (Z.odd q); reflexivity. }
      split; [now rewrite <- Hrec|]. split; [lia|]. split; [lia|].
      split; [exact Hq1|].
      assert (2 ^ 53 = 2 * 2 ^ 52) by reflexivity.
      assert (2 ^ 54 = 2 * 2 ^ 53) by reflexivity.
      pose proof (Z.div_mod q 2 ltac:(lia)) as Hdm.
      pose proof (Z.mod_pos_bound q 2 ltac:(lia)) as Hmb.
      split; [left; lia|]. split; [lia|].
      intros Hl.
      assert (Hodd : Z.odd q = true).
      { destruct (new_location d r) as [|[ | | ]]; cbn [shr_record_of_loc] in Hl;
          rewrite shr_1_spec in Hl by lia; destruct (Z.odd q); cbn in Hl;
          try reflexivity; destruct Hl; discriminate. }
      rewrite Zmod_odd, Hodd in Hdm.
      rewrite Hs2 in Hqr. nia.
    - (* no shift *)
      exists q, (new_location d r), (- s), s.
      split; [reflexivity|]. split; [reflexivity|]. split; [lia|].
      split; [reflexivity|].
      assert (Hd53 : Zdigits2 q <= 53) by lia.
      assert (Hq53 : q < 2 ^ 53).
      { destruct (Z.eq_dec q 0) as [E0|N0]; [rewrite E0; reflexivity|].
        pose proof (Zdigits2_bounds q ltac:(lia)) as [_ Hhi].
        assert (2 ^ Zdigits2 q <= 2 ^ 53) by (apply Z.pow_le_mono_r; lia).
        lia. }
      split; [destruct Hnorm; [now left | right; lia]|].
      split; [lia|].
      intros Hl. pose proof (new_location_up d r Hd Hr Hl). lia. }
  clear sh Hsh Hdq Hdq0.
  rewrite shr_m_record_of_loc, loc_of_record_of_loc.
  (* rounding *)
  set (m1 := round_nearest_even q1 l1).
  assert (Hm1 : m1 = q1 \/ (m1 = q1 + 1 /\ d <= 2 * (n * 2 ^ t - q1 * d))).
  { destruct (round_nearest_even_cases q1 l1) as [E | [E Hl]];
      [now left | right; split; [exact E | now apply Hup]]. }
  pose proof (round_keeps_floor n d t q1 m1 Hd Hn ltac:(lia) Hq1 Hn1
                ltac:(lia) Hm1) as Hfloor.
  assert (Hm1b : 0 <= m1 <= 2 ^ 53) by (destruct Hm1 as [-> | [-> _]]; lia).
  (* second shift *)
  assert (Hdm : Zdigits2 m1 <= 54) by (apply Zdigits2_le; [lia|];
    assert (2 ^ 54 = 2 * 2 ^ 53) by reflexivity; lia).
  pose proof (Zdigits2_nonneg m1) as Hdm0.
  set (sh2 := Z.max (Zdigits2 m1 + e1 - 53) (-1074) - e1).
  assert (Hsh2 : sh2 <= 1) by lia.
  rewrite (shr_at_most_one _ _ sh2 Hsh2).
  destruct (Z.eqb_spec sh2 1) as [E2|N2].
  - assert (Hd54 : Zdigits2 m1 = 54) by lia.
    assert (Em1 : m1 = 2 ^ 53).
    { destruct (Z.eq_dec m1 0) as [E0|N0];
        [rewrite E0 in Hd54; cbn in Hd54; lia|].
      pose proof (Zdigits2_bounds m1 ltac:(lia)) as [Hlo _].
      rewrite Hd54 in Hlo. change (2 ^ (54 - 1)) with (2 ^ 53) in Hlo. lia. }
    cbn [shr_record_of_loc]. rewrite shr_1_spec by lia. cbn [shr_m].
    rewrite Em1. change (2 ^ 53 / 2) with (Zpos (2 ^ 52)).
    assert (Hle : (e1 + 1 <=? emax - prec) = true)
      by (apply Z.leb_le; change (emax - prec) with 971; lia).
    rewrite Hle. cbn [SF2Z]. f_equal. unfold signed.
    change (Zpos (2 ^ 52)) with (2 ^ 53 / 2).
    rewrite shiftl_half by reflexivity.
    rewrite He1, shiftl_neg by lia. rewrite <- Em1, Hfloor. reflexivity.
  - cbn [shr_record_of_loc shr_m].
    destruct m1 as [|pm|pm] eqn:Em; [| |lia].
    + cbn [SF2Z]. f_equal. rewrite <- Hfloor.
      rewrite Z.div_0_l by (apply Z.pow_nonzero; lia).
      now destruct sx.
    + assert (Hle : (e1 <=? emax - prec) = true)
        by (apply Z.leb_le; change (emax - prec) with 971; lia).
      rewrite Hle. cbn [SF2Z]. f_equal. unfold signed.
      rewrite He1, shiftl_neg by lia. rewrite Hfloor. reflexivity.
Qed.

Lemma SFdiv_core_small (n d : Z) :
  0 < d -> 0 < n < 2 ^ 53 ->
  exists s,
    SFdiv_core_binary prec emax n 0 d 0
    = (n * 2 ^ s / d, - s, new_location d ((n * 2 ^ s) mod d))
    /\ 1 <= s <= 1074
    /\ n * 2 ^ s / d < 2 ^ 54
    /\ (2 ^ 52 <= n * 2 ^ s / d \/ s = 1074).
Proof.
  intros Hd Hn.
  pose proof (Zdigits2_bounds n ltac:(lia)) as [Hn1 Hn2].
  pose proof (Zdigits2_bounds d Hd) as [Hd1 Hd2].
  assert (H1 : Zdigits2 n <= 53) by (apply Zdigits2_le; lia).
  assert (H2 : 1 <= Zdigits2 n) by (apply (Zdigits2_ge n 0); lia).
  assert (H3 : 1 <= Zdigits2 d) by (apply (Zdigits2_ge d 0); lia).
  set (d1 := Zdigits2 n) in *. set (d2 := Zdigits2 d) in *.
  set (s := - Z.max (d1 - d2 - 53) (-1074)).
  assert (Hs : 1 <= s <= 1074) by lia.
  exists s. split; [|split; [exact Hs|]].
  - unfold SFdiv_core_binary. fold d1 d2. rewrite !Z.add_0_r, fexp64.
    replace (Z.min (Z.max (d1 - d2 - 53) (-1074)) (0 - 0)) with (- s) by lia.
    replace (0 - 0 - - s) with s by lia.
    destruct s as [|ps|ps] eqn:Es; try lia.
    rewrite Z.shiftl_mul_pow2 by lia.
    unfold Z.div, Z.modulo.
    destruct (Z.div_eucl (n * 2 ^ Zpos ps) d) as [q r]. reflexivity.
  - assert (HP : 0 < 2 ^ s) by (apply Z.pow_pos_nonneg; lia).
    assert (Hq0 : 0 <= n * 2 ^ s / d) by (apply Z.div_pos; nia).
    pose proof (Z.mul_div_le (n * 2 ^ s) d Hd) as Hqd.
    set (q := n * 2 ^ s / d) in *.
    assert (HPd : 0 < 2 ^ (d2 - 1)) by (apply Z.pow_pos_nonneg; lia).
    split.
    + assert (Hpow : 2 ^ d1 * 2 ^ s <= 2 ^ 54 * 2 ^ (d2 - 1)).
      { rewrite <- !Z.pow_add_r by lia. apply Z.pow_le_mono_r; lia. }
      assert (q * 2 ^ (d2 - 1) < 2 ^ 54 * 2 ^ (d2 - 1)) by nia.
      nia.
    + destruct (Z_le_gt_dec (-1074) (d1 - d2 - 53)) as [Hnorm|Hsub];
        [left | right; lia].
      apply Z.div_le_lower_bound; [lia|].
      assert (Es : s = 53 - d1 + d2) by lia.
      assert (Hpow : 2 ^ 52 * 2 ^ d2 = 2 ^ (d1 - 1) * 2 ^ s).
      { rewrite <- !Z.pow_add_r by lia. f_equal. lia. }
      assert (0 < 2 ^ 52) by reflexivity. nia.
Qed.

(** The truncated binary64 quotient of two integers, the dividend below
    2^53 in absolute value, is their integer quotient. *)
Lemma SFdiv_trunc_small (n d : Z) :
  0 <= n < 2 ^ 53 -> d <> 0 ->
  SF2Z (SFdiv prec emax (Z2SF n) (Z2SF d)) = Some (Z.quot n d).
Proof.
  intros Hn Hd.
  destruct (Z.eq_dec n 0) as [->|Hn0].
  { destruct d as [|pd|pd]; try lia; reflexivity. }
  assert (Hpos : forall sy pd,
             SF2Z (SFdiv prec emax (Z2SF n) (S754_finite sy pd 0))
             = Some (signed sy (n / Zpos pd))).
  { intros sy pd. destruct n as [|pn|pn] eqn:En; try lia.
    cbn [Z2SF SFdiv xorb].
    destruct (SFdiv_core_small (Zpos pn) (Zpos pd) ltac:(lia) ltac:(lia))
      as (s & -> & Hs & Hq & Hnorm).
    apply binary_round_aux_trunc; try assumption; lia. }
  destruct d as [|pd|pd]; try lia; cbn [Z2SF]; rewrite Hpos; f_equal;
    unfold signed.
  - symmetry. apply Z.quot_div_nonneg; lia.
  - change (Zneg pd) with (- Zpos pd).
    rewrite Z.quot_opp_r by lia. f_equal.
    symmetry. apply Z.quot_div_nonneg; lia.
Qed.

(** [int(n / d)] is the integer quotient, truncated towards zero, for
    every dividend below 2^53 in absolute value. *)
Lemma int_truediv_small (n d : Z) :
  0 <= n < 2 ^ 53 -> d <> 0 -> int_truediv n d = Ok (Z.quot n d).
Proof.
  intros Hn Hd. unfold int_truediv.
  destruct (Z.eqb_spec d 0) as [E|_]; [contradiction|].
  now rewrite SFdiv_trunc_small.
Qed.

(** On a length below 2^53 and a positive fold count, it is the floor
    quotient. *)
Lemma int_truediv_floor (n d : Z) :
  0 <= n < 2 ^ 53 -> 0 < d -> int_truediv n d = Ok (n / d).
Proof.
  intros Hn Hd. rewrite int_truediv_small by lia.
  now rewrite Z.quot_div_nonneg by lia.
Qed.

(** At any length, a quotient of a non-negative by a positive int is not
    negative. *)
Lemma int_truediv_nonneg (n d fs : Z) :
  0 <= n -> 0 < d -> int_truediv n d = Ok fs -> 0 <= fs.
Proof.
  intros Hn Hd. unfold int_truediv.
  destruct (Z.eqb_spec d 0) as [E|_]; [lia|].
  destruct n as [|pn|pn]; [| |lia]; destruct d as [|pd|pd]; try lia;
    cbn [Z2SF SFdiv xorb].
  - cbn. intros [= <-]. lia.
  - destruct (SFdiv_core_binary prec emax (Zpos pn) 0 (Zpos pd) 0)
      as [[mz ez] lz].
    unfold binary_round_aux.
    destruct (shr_fexp prec emax mz ez lz) as [mrs' e'].
    destruct (shr_fexp prec emax _ e' loc_Exact) as [mrs'' e''].
    destruct (shr_m mrs'') as [|m|m]; cbn [SF2Z]; try discriminate.
    + intros [= <-]. lia.
    + destruct (e'' <=? emax - prec); cbn [SF2Z]; [|discriminate].
      intros [= <-]. apply Z.shiftl_nonneg. lia.
Qed.

End FloatQuotient.

(** * Properties of TimeSeriesEmbargoCV *)

Section SplitterProperties.
Import TimeSeriesEmbargoCV.
Open Scope Z_scope.

Lemma In_arange (a b x : Z) : In x (arange a b) <-> a <= x < b.
Proof.
  unfold arange. rewrite in_map_iff. split.
  - intros [k [<- Hk]]. apply in_seq in Hk. lia.
  - intros Hx. exists (Z.to_nat (x - a)). split; [lia|].
    apply in_seq. lia.
Qed.

Lemma length_arange (a b : Z) : length (arange a b) = Z.to_nat (b - a).
Proof. unfold arange. now rewrite length_map, length_seq. Qed.

Lemma len_nonneg {A : Type} (X : list A) : 0 <= len X.
Proof. unfold len. lia. Qed.

(** A sequence of a given length, for the statements about one. *)
Lemma len_repeat (n : Z) : 0 <= n -> len (repeat tt (Z.to_nat n)) = n.
Proof. intros Hn. unfold len. rewrite repeat_length. lia. Qed.

Lemma split_loop_nth (self : t) (n fs : Z) (m s j : nat) (f : fold) :
  nth_error (split_loop self n fs (map Z.of_nat (seq s m))) j = Some f ->
  f = fold_at self fs (Z.of_nat (s + j))
  /\ (Z.of_nat (s + j) * fs + fs + embargo_size self + fs
      - embargo_size self <= n).
Proof.
  revert s j. induction m as [|m IH]; intros s j; simpl.
  - destruct j; discriminate.
  - destruct (Z.gtb_spec
                (Z.of_nat s * fs + fs + embargo_size self + fs
                 - embargo_size self) n) as [Hgt|Hle].
    + destruct j; discriminate.
    + destruct j as [|j]; simpl.
      * intros [= <-]. rewrite Nat.add_0_r. split; [reflexivity|lia].
      * intros Hj. apply IH in Hj.
        replace (s + S j)%nat with (S s + j)%nat by lia. exact Hj.
Qed.

Lemma split_loop_negative (self : t) (n fs k : Z) :
  k <= 0 -> split_loop self n fs (range k) = [].
Proof.
  intros Hk. unfold range.
  replace (Z.to_nat k) with 0%nat by lia. reflexivity.
Qed.

(** With the fold size [fs] that [int(n / cv)] gives, when it is not 0,
    [get_n_splits] returns. *)
Lemma get_n_splits_value {A : Type} (self : t) (X : list A) (fs : Z) :
  int_truediv (len X) (n_splits self) = Ok fs ->
  fs <> 0 ->
  get_n_splits self X
  = Ok (Z.min (n_splits self) ((len X - embargo_size self) / fs)).
Proof.
  intros Hfs Hnz. unfold get_n_splits. rewrite Hfs. cbn [bind].
  unfold floordiv. destruct (Z.eqb_spec fs 0); [contradiction|].
  reflexivity.
Qed.

Lemma split_value {A : Type} (self : t) (X : list A) (fs : Z) :
  int_truediv (len X) (n_splits self) = Ok fs ->
  fs <> 0 ->
  split self X
  = Ok (split_loop self (len X) fs
          (range (Z.min (n_splits self)
                    ((len X - embargo_size self) / fs)))).
Proof.
  intros Hfs Hnz. unfold split. rewrite Hfs. cbn [bind].
  rewrite (get_n_splits_value self X fs Hfs Hnz). reflexivity.
Qed.

(** A [split] that yields has a positive fold size. *)
Lemma split_ok_fold_size {A : Type} (self : t) (X : list A) folds :
  0 < n_splits self ->
  split self X = Ok folds ->
  exists fs, int_truediv (len X) (n_splits self) = Ok fs /\ 0 < fs.
Proof.
  intros Hcv Hs. pose proof (len_nonneg X) as Hn.
  unfold split, get_n_splits in Hs.
  destruct (int_truediv (len X) (n_splits self)) as [fs|e] eqn:Hfs;
    [|discriminate].
  exists fs. split; [reflexivity|].
  pose proof (int_truediv_nonneg _ _ _ Hn Hcv Hfs) as H0.
  destruct (Z.eq_dec fs 0) as [E|NE]; [|lia].
  exfalso. cbn [bind] in Hs. unfold floordiv in Hs. rewrite E in Hs.
  cbn in Hs. discriminate.
Qed.

(** C3. With cv=5 and embargo_size=0 on a sequence of length 100,
    [get_n_splits] returns 5 while [split] yields 4 pairs: at fold index 4
    the train range is [80,100) and the test range would end at 120 > 100,
    so the loop breaks. *)
Theorem split_cv5_embargo0_len100 {A : Type} (X : list A) :
  length X = 100%nat ->
  init (Int 5) (Int 0) = Ok (mk 5 0)
  /\ get_n_splits (mk 5 0) X = Ok 5
  /\ split (mk 5 0) X
     = Ok [(arange 0 20, arange 20 40); (arange 20 40, arange 40 60);
           (arange 40 60, arange 60 80); (arange 60 80, arange 80 100)]
  /\ (exists folds, split (mk 5 0) X = Ok folds /\ length folds = 4%nat)
  /\ fst (fold_at (mk 5 0) 20 4) = arange 80 100
  /\ snd (fold_at (mk 5 0) 20 4) = arange 100 120
  /\ split_loop (mk 5 0) 100 20 [4] = [].
Proof.
  intros HX.
  assert (Hg : get_n_splits (mk 5 0) X = Ok 5).
  { unfold get_n_splits, len. rewrite HX. reflexivity. }
  assert (Hs : split (mk 5 0) X
     = Ok [(arange 0 20, arange 20 40); (arange 20 40, arange 40 60);
           (arange 40 60, arange 60 80); (arange 60 80, arange 80 100)]).
  { unfold split, get_n_splits, len. rewrite HX. reflexivity. }
  repeat split; try assumption; try reflexivity.
  eexists. split; [exact Hs | reflexivity].
Qed.

Lemma split_cv5_embargo0_len100_witness :
  get_n_splits (mk 5 0) (repeat tt 100) = Ok 5
  /\ exists folds, split (mk 5 0) (repeat tt 100) = Ok folds
                   /\ length folds = 4%nat.
Proof.
  pose proof (split_cv5_embargo0_len100 (repeat tt 100) (repeat_length tt 100))
    as (_ & Hg & _ & Hf & _).
  split; [exact Hg | exact Hf].
Defined.

(** C8, as stated, fails for long sequences: on a sequence of length
    10^18 with cv=3 and embargo_size=2, floor(n / cv) is
    333333333333333333 and the formula min(cv, floor((n - e) / fold_size))
    gives 2, but [int(n / cv)] is taken in binary64 and is
    333333333333333312, and [get_n_splits] returns 3. *)
Lemma get_n_splits_formula_fails_at_1e18 :
  len (repeat tt (Z.to_nat (10 ^ 18))) = 10 ^ 18
  /\ 10 ^ 18 / 3 = 333333333333333333
  /\ Z.min 3 ((10 ^ 18 - 2) / (10 ^ 18 / 3)) = 2
  /\ int_truediv (10 ^ 18) 3 = Ok 333333333333333312
  /\ get_n_splits (mk 3 2) (repeat tt (Z.to_nat (10 ^ 18))) = Ok 3
  /\ get_n_splits (mk 3 2) (repeat tt (Z.to_nat (10 ^ 18)))
     <> Ok (Z.min 3 ((10 ^ 18 - 2) / (10 ^ 18 / 3))).
Proof.
  assert (Hlen : len (repeat tt (Z.to_nat (10 ^ 18))) = 10 ^ 18)
    by (apply len_repeat; discriminate).
  assert (Hfs : int_truediv (10 ^ 18) 3 = Ok 333333333333333312)
    by (vm_compute; reflexivity).
  assert (Hg : get_n_splits (mk 3 2) (repeat tt (Z.to_nat (10 ^ 18))) = Ok 3).
  { rewrite (get_n_splits_value _ _ 333333333333333312);
      rewrite ?Hlen; [reflexivity | exact Hfs | discriminate]. }
  split; [exact Hlen|]. split; [reflexivity|]. split; [reflexivity|].
  split; [exact Hfs|]. split; [exact Hg|].
  rewrite Hg. intros H. vm_compute in H. discriminate H.
Qed.

(** C8, amended. For a sequence of length n below 2^53 and a splitter
    with fold count cv > 0 whose fold size floor(n / cv) is non-zero,
    [get_n_splits] returns min(cv, floor((n - e) / fold_size)). For cv=5,
    e=3, n=100 it returns 4 and [split] yields 4 pairs, each a 20-wide
    train range and a 17-wide test range that starts 3 positions after the
    train range ends. *)
Theorem get_n_splits_min_formula {A : Type} (self : t) (X : list A) :
  0 < n_splits self ->
  len X < 2 ^ 53 ->
  len X / n_splits self <> 0 ->
  get_n_splits self X
  = Ok (Z.min (n_splits self)
              ((len X - embargo_size self) / (len X / n_splits self)))
  /\ (n_splits self = 5 -> embargo_size self = 3 -> len X = 100 ->
      get_n_splits self X = Ok 4
      /\ split self X
         = Ok [(arange 0 20, arange 23 40); (arange 20 40, arange 43 60);
               (arange 40 60, arange 63 80); (arange 60 80, arange 83 100)]
      /\ exists folds,
           split self X = Ok folds /\ length folds = 4%nat
           /\ Forall (fun f =>
                        exists a, fst f = arange a (a + 20)
                                  /\ snd f = arange (a + 20 + 3) (a + 20 + 3 + 17)
                                  /\ length (fst f) = 20%nat
                                  /\ length (snd f) = 17%nat) folds).
Proof.
  intros Hcv Hlt Hfs.
  pose proof (int_truediv_floor (len X) (n_splits self)
                (conj (len_nonneg X) Hlt) Hcv) as Hq.
  split; [now apply get_n_splits_value|].
  intros H5 H3 H100.
  assert (Hg : get_n_splits self X = Ok 4).
  { rewrite (get_n_splits_value self X _ Hq Hfs), H5, H3, H100. reflexivity. }
  assert (Hs : split self X
     = Ok [(arange 0 20, arange 23 40); (arange 20 40, arange 43 60);
           (arange 40 60, arange 63 80); (arange 60 80, arange 83 100)]).
  { rewrite (split_value self X _ Hq Hfs). destruct self as [cv e].
    simpl in *. subst cv e. rewrite H100. reflexivity. }
  split; [exact Hg|]. split; [exact Hs|].
  eexists. split; [exact Hs|]. split; [reflexivity|].
  repeat constructor.
  - exists 0. repeat split; reflexivity.
  - exists 20. repeat split; reflexivity.
  - exists 40. repeat split; reflexivity.
  - exists 60. repeat split; reflexivity.
Qed.

Lemma get_n_splits_min_formula_witness :
  get_n_splits (mk 5 3) (repeat tt 100) = Ok 4
  /\ split (mk 5 3) (repeat tt 100)
     = Ok [(arange 0 20, arange 23 40); (arange 20 40, arange 43 60);
           (arange 40 60, arange 63 80); (arange 60 80, arange 83 100)].
Proof.
  assert (Hcv : 0 < n_splits (mk 5 3)) by reflexivity.
  assert (Hlt : len (repeat tt 100) < 2 ^ 53) by reflexivity.
  assert (Hfs : len (repeat tt 100) / n_splits (mk 5 3) <> 0)
    by (vm_compute; discriminate).
  destruct (get_n_splits_min_formula (mk 5 3) (repeat tt 100) Hcv Hlt Hfs)
    as [_ Hc].
  destruct (Hc eq_refl eq_refl eq_refl) as (Hg & Hs & _).
  split; [exact Hg | exact Hs].
Defined.

(** The formula of [get_n_splits] is stated for a fold count cv > 0, the
    contract of the constructor. [__init__] accepts any int; with a
    negative one [int(n / cv)] truncates where floor division would round
    down: for cv = -2 on length 7 the fold size is -3, not -4. *)
Example negative_cv_truncates :
  get_n_splits (mk (-2) 0) (repeat tt 7) = Ok (-3)
  /\ 7 / -2 = -4
  /\ Z.min (-2) ((7 - 0) / (7 / -2)) = -2.
Proof. repeat split. Qed.

(** C10, as stated, fails for long sequences: on a sequence of length
    n = 10^18 with cv=3 and embargo_size = n + 999999999999999999 the
    bound floor((n - e) / floor(n / cv)) is -3, but the fold size
    [int(n / cv)] taken in binary64 is 333333333333333312 and
    [get_n_splits] returns -4. *)
Lemma get_n_splits_negative_differs_at_1e18 :
  len (repeat tt (Z.to_nat (10 ^ 18))) = 10 ^ 18
  /\ 10 ^ 18 / 3 <> 0
  /\ 10 ^ 18 + 999999999999999999 > 10 ^ 18
  /\ (10 ^ 18 - (10 ^ 18 + 999999999999999999)) / (10 ^ 18 / 3) = -3
  /\ get_n_splits (mk 3 (10 ^ 18 + 999999999999999999))
       (repeat tt (Z.to_nat (10 ^ 18))) = Ok (-4)
  /\ get_n_splits (mk 3 (10 ^ 18 + 999999999999999999))
       (repeat tt (Z.to_nat (10 ^ 18)))
     <> Ok ((10 ^ 18 - (10 ^ 18 + 999999999999999999)) / (10 ^ 18 / 3)).
Proof.
  assert (Hlen : len (repeat tt (Z.to_nat (10 ^ 18))) = 10 ^ 18)
    by (apply len_repeat; discriminate).
  assert (Hfs : int_truediv (10 ^ 18) 3 = Ok 333333333333333312)
    by (vm_compute; reflexivity).
  assert (Hg : get_n_splits (mk 3 (10 ^ 18 + 999999999999999999))
                 (repeat tt (Z.to_nat (10 ^ 18))) = Ok (-4)).
  { rewrite (get_n_splits_value _ _ 333333333333333312);
      rewrite ?Hlen; [reflexivity | exact Hfs | discriminate]. }
  split; [exact Hlen|].
  split; [intros H; vm_compute in H; discriminate H|].
  split; [reflexivity|]. split; [reflexivity|]. split; [exact Hg|].
  rewrite Hg. intros H. vm_compute in H. discriminate H.
Qed.

(** C10, amended. For a sequence of length n below 2^53, with cv > 0, a
    non-zero fold size floor(n / cv) and embargo_size greater than n, the
    feasibility bound floor((n - e) / fold_size) is negative,
    [get_n_splits] returns it, and [split] yields nothing; for cv=5,
    embargo_size=150 on length 100 the value is -3. *)
Theorem get_n_splits_negative {A : Type} (self : t) (X : list A) :
  0 < n_splits self ->
  len X < 2 ^ 53 ->
  len X / n_splits self <> 0 ->
  embargo_size self > len X ->
  (len X - embargo_size self) / (len X / n_splits self) < 0
  /\ get_n_splits self X
     = Ok ((len X - embargo_size self) / (len X / n_splits self))
  /\ split self X = Ok []
  /\ (n_splits self = 5 -> embargo_size self = 150 -> len X = 100 ->
      get_n_splits self X = Ok (-3)).
Proof.
  intros Hcv Hlt Hfs He. pose proof (len_nonneg X) as Hn.
  pose proof (int_truediv_floor (len X) (n_splits self)
                (conj Hn Hlt) Hcv) as Hq.
  assert (Hpos : 0 < len X / n_splits self).
  { assert (0 <= len X / n_splits self) by (apply Z.div_pos; lia). lia. }
  assert (Hneg : (len X - embargo_size self) / (len X / n_splits self) < 0).
  { apply Z.div_lt_upper_bound; lia. }
  assert (Hg : get_n_splits self X
     = Ok ((len X - embargo_size self) / (len X / n_splits self))).
  { rewrite (get_n_splits_value self X _ Hq Hfs). f_equal. lia. }
  split; [exact Hneg|]. split; [exact Hg|]. split.
  - rewrite (split_value self X _ Hq Hfs).
    rewrite split_loop_negative by lia. reflexivity.
  - intros H5 H150 H100. rewrite Hg, H5, H150, H100. reflexivity.
Qed.

Lemma get_n_splits_negative_witness :
  get_n_splits (mk 5 150) (repeat tt 100) = Ok (-3)
  /\ split (mk 5 150) (repeat tt 100) = Ok [].
Proof.
  assert (Hcv : 0 < n_splits (mk 5 150)) by reflexivity.
  assert (Hlt : len (repeat tt 100) < 2 ^ 53) by reflexivity.
  assert (Hfs : len (repeat tt 100) / n_splits (mk 5 150) <> 0)
    by (vm_compute; discriminate).
  assert (He : embargo_size (mk 5 150) > len (repeat tt 100)) by reflexivity.
  destruct (get_n_splits_negative (mk 5 150) (repeat tt 100) Hcv Hlt Hfs He)
    as (_ & _ & Hs & Hc).
  split; [exact (Hc eq_refl eq_refl eq_refl) | exact Hs].
Defined.

(** C5, as stated, fails: with cv=5 and embargo_size=0 on a sequence of
    length 100 the test range of the first pair and the train range of the
    second are both [20,40), so the ranges of the yielded pairs are not
    pairwise non-overlapping. *)
Lemma split_ranges_overlap :
  exists folds,
    split (mk 5 0) (repeat tt 100) = Ok folds
    /\ nth_error (ranges_of folds) 1 = Some (arange 20 40)
    /\ nth_error (ranges_of folds) 2 = Some (arange 20 40)
    /\ ~ pairwise_disjoint (ranges_of folds).
Proof.
  eexists. split; [reflexivity|]. split; [reflexivity|].
  split; [reflexivity|].
  intros Hd.
  apply (Hd 1%nat 2%nat (arange 20 40) (arange 20 40)
            ltac:(discriminate) eq_refl eq_refl 20);
    apply In_arange; lia.
Qed.

(** C5, amended. For a sequence of any length n, cv > 0 and
    embargo_size >= 0, with fs > 0 the fold size [int(n / cv)] the code
    computes (floor(n / cv) when n is below 2^53), the k-th yielded pair
    is the train range [k*fs, (k+1)*fs) and the test range
    [(k+1)*fs + e, (k+2)*fs); each is a contiguous increasing range
    inside the sequence, every train index is below every test index of
    its pair and the test range starts e positions after the train range
    ends; the train ranges of different pairs do not overlap, and neither
    do the test ranges of different pairs. *)
Theorem split_folds_are_windows {A : Type} (self : t) (X : list A)
    (folds : list fold) :
  0 < n_splits self ->
  0 <= embargo_size self ->
  split self X = Ok folds ->
  let e := embargo_size self in
  exists fs,
    int_truediv (len X) (n_splits self) = Ok fs
    /\ (len X < 2 ^ 53 -> fs = len X / n_splits self)
    /\ 0 < fs
    /\ (forall k train test,
          nth_error folds k = Some (train, test) ->
          let i := Z.of_nat k in
          train = arange (i * fs) ((i + 1) * fs)
          /\ test = arange ((i + 1) * fs + e) ((i + 2) * fs)
          /\ (i + 2) * fs <= len X
          /\ (forall x, In x train -> 0 <= x < (i + 1) * fs)
          /\ (forall y, In y test -> (i + 1) * fs + e <= y < len X)
          /\ (forall x y, In x train -> In y test -> x + e < y))
    /\ (forall j k f g,
          j <> k ->
          nth_error folds j = Some f -> nth_error folds k = Some g ->
          disjoint (fst f) (fst g) /\ disjoint (snd f) (snd g)).
Proof.
  intros Hcv He Hs e.
  destruct (split_ok_fold_size self X folds Hcv Hs) as (fs & Hq & Hfs).
  exists fs. split; [exact Hq|]. split.
  { intros Hlt.
    pose proof (int_truediv_floor (len X) (n_splits self)
                  (conj (len_nonneg X) Hlt) Hcv) as Hq'.
    congruence. }
  assert (Hnz : fs <> 0) by lia.
  rewrite (split_value self X fs Hq Hnz) in Hs. injection Hs as Hs.
  fold e in Hs. unfold range in Hs.
  assert (Hnth : forall k f, nth_error folds k = Some f ->
            f = (arange (Z.of_nat k * fs) ((Z.of_nat k + 1) * fs),
                 arange ((Z.of_nat k + 1) * fs + e) ((Z.of_nat k + 2) * fs))
            /\ (Z.of_nat k + 2) * fs <= len X).
  { intros k f Hk. rewrite <- Hs in Hk.
    apply split_loop_nth in Hk. simpl in Hk. destruct Hk as [-> Hb].
    fold e in Hb. split; [|lia]. unfold fold_at. fold e.
    f_equal; f_equal; lia. }
  split; [exact Hfs|]. split.
  - intros k train test Hk i. destruct (Hnth _ _ Hk) as [[= -> ->] Hb].
    fold i in Hb |- *.
    assert (0 <= i) by (unfold i; lia).
    repeat split; try reflexivity; try assumption; intros;
      repeat match goal with
             | H : In _ (arange _ _) |- _ => apply In_arange in H
             end; nia.
  - intros j k f g Hjk Hj Hk.
    destruct (Hnth _ _ Hj) as [-> _]. destruct (Hnth _ _ Hk) as [-> _].
    simpl. split; intros x Hx Hx'; apply In_arange in Hx, Hx'; nia.
Qed.

Lemma split_folds_are_windows_witness :
  disjoint (arange 0 20) (arange 20 40)
  /\ disjoint (arange 23 40) (arange 43 60).
Proof.
  assert (Hcv : 0 < n_splits (mk 5 3)) by reflexivity.
  assert (He : 0 <= embargo_size (mk 5 3)) by (vm_compute; discriminate).
  destruct (split_folds_are_windows (mk 5 3) (repeat tt 100)
              [(arange 0 20, arange 23 40); (arange 20 40, arange 43 60);
               (arange 40 60, arange 63 80); (arange 60 80, arange 83 100)]
              Hcv He eq_refl)
    as (fs & _ & _ & _ & _ & Hd).
  exact (Hd 0%nat 1%nat (arange 0 20, arange 23 40)
            (arange 20 40, arange 43 60)
            ltac:(discriminate) eq_refl eq_refl).
Defined.

End SplitterProperties.

(** * Properties of CumSumFilter *)

Section FilterProperties.
Open Scope nat_scope.

(** ** Order facts of binary64 that the filter relies on *)

Lemma float_pos_not_le_zero (h : float) :
  (0 <? h)%float = true -> (h <=? 0)%float = false.
Proof.
  rewrite ltb_spec, leb_spec.
  change (Prim2SF 0) with (S754_zero false).
  destruct (Prim2SF h) as [s | s | | s m e]; try destruct s;
    cbv [SFltb SFleb SFcompare]; congruence.
Qed.

Lemma float_nonpos_le_pos (h x : float) :
  (h <=? 0)%float = true -> (0 <? x)%float = true -> (h <=? x)%float = true.
Proof.
  rewrite ltb_spec, !leb_spec.
  change (Prim2SF 0) with (S754_zero false).
  destruct (Prim2SF h) as [s | s | | s m e]; try destruct s;
    destruct (Prim2SF x) as [s' | s' | | s' m' e']; try destruct s';
    cbv [SFltb SFleb SFcompare]; congruence.
Qed.

Lemma Q_pos_not_le_zero (h : Q) :
  Qlt_bool 0%Q h = true -> Qle_bool h 0%Q = false.
Proof.
  unfold Qlt_bool. now destruct (Qle_bool h 0%Q).
Qed.

Lemma Q_nonpos_le_pos (h x : Q) :
  Qle_bool h 0%Q = true -> Qlt_bool 0%Q x = true -> Qle_bool h x = true.
Proof.
  unfold Qlt_bool. intros Hh Hx.
  apply Qle_bool_iff in Hh. apply Qle_bool_iff.
  destruct (Qle_bool x 0%Q) eqn:E; [discriminate|].
  assert (Hpos : (0 < x)%Q).
  { apply Qnot_le_lt. intros Hle. apply Qle_bool_iff in Hle. congruence. }
  apply Qlt_le_weak. eapply Qle_lt_trans; eassumption.
Qed.

(** ** The event list, for any carrier *)

Lemma StronglySorted_snoc (l : list nat) (n : nat) :
  StronglySorted Nat.lt l -> Forall (fun e => e < n) l ->
  StronglySorted Nat.lt (l ++ [n]).
Proof.
  induction 1 as [|x l Hl IH Hx]; intros Hn; simpl.
  - repeat constructor.
  - inversion Hn as [|? ? Hxn Hln]; subst. constructor; [now apply IH|].
    apply Forall_app. split; [exact Hx | now repeat constructor].
Qed.

Lemma StronglySorted_lt_NoDup (l : list nat) :
  StronglySorted Nat.lt l -> NoDup l.
Proof.
  induction 1 as [|x l Hl IH Hx]; constructor; [|exact IH].
  intros Hin. rewrite Forall_forall in Hx. specialize (Hx _ Hin).
  unfold Nat.lt in Hx. lia.
Qed.

Lemma below_weaken (n : nat) (l : list nat) : below n l -> below (S n) l.
Proof.
  intros [Hs Hb]. split; [exact Hs|].
  eapply Forall_impl; [|exact Hb]. simpl. lia.
Qed.

Lemma below_snoc (n : nat) (l : list nat) :
  below n l -> below (S n) (l ++ [n]).
Proof.
  intros [Hs Hb]. split; [now apply StronglySorted_snoc|].
  apply Forall_app. split.
  - eapply Forall_impl; [|exact Hb]. simpl. lia.
  - repeat constructor.
Qed.

Lemma count_occ_doubled (s n i : nat) :
  count_occ Nat.eq_dec (doubled s n) i
  = if (s <=? i) && (i <? s + n) then 2 else 0.
Proof.
  unfold doubled. revert s. induction n as [|n IH]; intros s.
  - simpl. destruct (Nat.leb_spec s i), (Nat.ltb_spec i (s + 0));
      simpl; try reflexivity; lia.
  - cbn [seq flat_map app count_occ]. rewrite IH.
    destruct (Nat.eq_dec s i) as [->|Hne].
    + destruct (Nat.leb_spec (S i) i); [lia|].
      destruct (Nat.leb_spec i i); [|lia].
      destruct (Nat.ltb_spec i (i + S n)); [|lia]. reflexivity.
    + destruct (Nat.leb_spec (S s) i), (Nat.ltb_spec i (S s + n)),
        (Nat.leb_spec s i), (Nat.ltb_spec i (s + S n));
        simpl; try reflexivity; lia.
Qed.

Lemma doubled_not_increasing (n : nat) :
  n <> 0 -> ~ strictly_increasing (doubled 0 n).
Proof.
  destruct n as [|n]; [congruence|]. intros _ Hs.
  unfold doubled in Hs. cbn [seq flat_map app] in Hs.
  inversion Hs as [|? ? _ Hhd]; subst.
  inversion Hhd as [|? ? Hlt]; subst. unfold Nat.lt in Hlt. lia.
Qed.

Section FilterFacts.
Context {T : Type} `{Num T}.
Import CumSumFilter.
Variable h : T.

Lemma run_is_run_from (data : list T) :
  run h data
  = run_from h 0 data {| s_plus := zero; s_minus := zero; events := [] |}.
Proof. reflexivity. Qed.

Section Positive.
(** What a positive threshold gives: the reset value does not reach
    it. *)
Hypothesis reset_quiet : geb (abs zero) h = false.

Lemma step_plus_fires (st : acc T) (i : nat) (v : T) :
  geb (py_max zero (add (s_plus st) v)) h = true ->
  step h st (i, v)
  = {| s_plus := zero; s_minus := zero; events := events st ++ [i] |}.
Proof.
  intros Hp. unfold step. cbn [s_plus s_minus events].
  rewrite Hp. cbn [s_plus s_minus events]. now rewrite reset_quiet.
Qed.

Lemma step_at_most_one (st : acc T) (i : nat) (v : T) :
  events (step h st (i, v)) = events st
  \/ events (step h st (i, v)) = events st ++ [i].
Proof.
  unfold step. cbn [s_plus s_minus events].
  destruct (geb (py_max zero (add (s_plus st) v)) h);
    cbn [s_plus s_minus events].
  - rewrite reset_quiet. now right.
  - destruct (geb (abs (py_min zero (add (s_minus st) v))) h);
      [now right | now left].
Qed.

Lemma run_from_below (data : list T) (s : nat) (st : acc T) :
  below s (events st) ->
  below (s + length data) (events (run_from h s data st)).
Proof.
  revert s st. induction data as [|v data IH]; intros s st Hb.
  - unfold run_from. simpl. now rewrite Nat.add_0_r.
  - unfold run_from. cbn [length seq combine fold_left].
    replace (s + S (length data)) with (S s + length data) by lia.
    apply IH.
    destruct (step_at_most_one st s v) as [-> | ->];
      [now apply below_weaken | now apply below_snoc].
Qed.
End Positive.

Section NonPositive.
(** What a threshold [h <= 0] gives: both tests hold at every step. *)
Hypothesis plus_reaches : forall x, geb (py_max zero x) h = true.
Hypothesis reset_reaches : geb (abs zero) h = true.

Lemma step_twice (st : acc T) (i : nat) (v : T) :
  step h st (i, v)
  = {| s_plus := zero; s_minus := zero;
       events := events st ++ [i; i] |}.
Proof.
  unfold step. cbn [s_plus s_minus events].
  rewrite plus_reaches. cbn [s_plus s_minus events].
  rewrite reset_reaches. now rewrite <- app_assoc.
Qed.

Lemma run_from_doubled (data : list T) (s : nat) (st : acc T) :
  events (run_from h s data st)
  = events st ++ doubled s (length data).
Proof.
  revert s st. induction data as [|v data IH]; intros s st.
  - unfold run_from, doubled. simpl. now rewrite app_nil_r.
  - unfold run_from. cbn [length seq combine fold_left].
    fold (run_from h (S s) data (step h st (s, v))).
    rewrite IH, step_twice. cbn [events].
    unfold doubled. cbn [seq flat_map]. now rewrite <- app_assoc.
Qed.
End NonPositive.
End FilterFacts.

Lemma float_reset_quiet (h : float) :
  (0 <? h)%float = true -> geb (abs zero) h = false.
Proof. intros Hh. now apply float_pos_not_le_zero. Qed.

Lemma float_plus_reaches (h : float) :
  (h <=? 0)%float = true -> forall x : float, geb (py_max zero x) h = true.
Proof.
  intros Hh x. unfold geb, py_max. cbn [leb ltb zero float_Num].
  destruct (0 <? x)%float eqn:E; [|exact Hh].
  now apply float_nonpos_le_pos.
Qed.

Lemma float_reset_reaches (h : float) :
  (h <=? 0)%float = true -> geb (abs zero) h = true.
Proof. intros Hh. exact Hh. Qed.

Import CumSumFilter.

(** The same two facts in exact arithmetic. *)
Lemma Q_run_increasing (data : list Q) (h : Q) :
  Qlt_bool 0%Q h = true ->
  StronglySorted Nat.lt (events (run h data))
  /\ Forall (fun i => i < length data) (events (run h data)).
Proof.
  intros Hh. rewrite run_is_run_from.
  assert (Hq : geb (abs zero) h = false)
    by exact (Q_pos_not_le_zero h Hh).
  apply (run_from_below h Hq data 0). split; constructor.
Qed.

Lemma Q_run_doubled (data : list Q) (h : Q) :
  Qle_bool h 0%Q = true ->
  events (run h data) = doubled 0 (length data).
Proof.
  intros Hh. rewrite run_is_run_from.
  assert (Hr : geb (abs zero) h = true) by exact Hh.
  rewrite (run_from_doubled h); [reflexivity | | exact Hr].
  intros x. unfold geb, py_max. cbn [leb ltb zero Q_Num].
  destruct (Qlt_bool 0%Q x) eqn:E; [|exact Hh].
  now apply Q_nonpos_le_pos.
Qed.

(** C1, as stated, fails: on [0.1, 0.1, 0.1, -0.5, 0.4, 0.4] with h = 0.3
    [filter()] does not return [2, 3]. *)
Lemma filter_scenario_not_2_3 :
  init (NdArray [0.1; 0.1; 0.1; -0.5; 0.4; 0.4]%float) 0.3%float = Ok scenario
  /\ snd (filter scenario) <> [2; 3].
Proof.
  split; [reflexivity|]. vm_compute. discriminate.
Qed.

(** C1, amended. On [0.1, 0.1, 0.1, -0.5, 0.4, 0.4] with h = 0.3
    [filter()] returns [2, 3, 4, 5]: after the events at 2 and 3 both
    accumulators are 0, and each 0.4 alone reaches the threshold. The same
    list comes out in exact arithmetic. *)
Theorem filter_scenario_events :
  init (NdArray [0.1; 0.1; 0.1; -0.5; 0.4; 0.4]%float) 0.3%float = Ok scenario
  /\ snd (filter scenario) = [2; 3; 4; 5]
  /\ _events (fst (filter scenario)) = [2; 3; 4; 5]
  /\ events (run (3 # 10)%Q
               [1 # 10; 1 # 10; 1 # 10; - (5 # 10); 4 # 10; 4 # 10]%Q)
     = [2; 3; 4; 5].
Proof. repeat split; vm_compute; reflexivity. Qed.

(** C6. With a positive threshold the list [filter()] returns is strictly
    increasing, so it holds no position twice, and its elements are
    positions of the input. In one step, when the s_plus test fires, both
    accumulators are reset, the s_minus test reads the reset value and
    does not fire: exactly one event is appended; no step appends more
    than one. *)
Theorem filter_events_strictly_increasing (self : CumSumFilter.t float) :
  (0 <? _h self)%float = true ->
  let ev := snd (filter self) in
  strictly_increasing ev
  /\ StronglySorted Nat.lt ev
  /\ NoDup ev
  /\ Forall (fun i => i < length (_data self)) ev
  /\ _events (fst (filter self)) = ev
  /\ (forall st i v,
        (_h self <=? py_max zero (add (s_plus st) v))%float = true ->
        step (_h self) st (i, v)
        = {| s_plus := zero; s_minus := zero; events := events st ++ [i] |})
  /\ (forall st i v,
        events (step (_h self) st (i, v)) = events st
        \/ events (step (_h self) st (i, v)) = events st ++ [i]).
Proof.
  intros Hh ev. pose proof (float_reset_quiet _ Hh) as Hq.
  assert (Hb : below (0 + length (_data self)) ev).
  { unfold ev, filter. cbn [snd]. rewrite run_is_run_from.
    apply run_from_below; [exact Hq|]. split; constructor. }
  destruct Hb as [Hs Hb].
  repeat split.
  - now apply StronglySorted_Sorted.
  - exact Hs.
  - now apply StronglySorted_lt_NoDup.
  - exact Hb.
  - intros st i v Hp. now apply step_plus_fires.
  - intros st i v. now apply step_at_most_one.
Qed.

Lemma filter_events_strictly_increasing_witness :
  strictly_increasing (snd (filter scenario))
  /\ NoDup (snd (filter scenario)).
Proof.
  assert (Hh : (0 <? _h scenario)%float = true) by reflexivity.
  destruct (filter_events_strictly_increasing scenario Hh)
    as (Hs & _ & Hn & _).
  split; [exact Hs | exact Hn].
Defined.

(** C9, as stated, fails on the empty sequence: with h = 0 [filter()]
    returns the empty list, which is strictly increasing. *)
Lemma filter_empty_is_increasing :
  let self := {| _index := None; _data := []; _h := 0%float;
                 _events := [] |} in
  init (NdArray []) 0%float = Ok self
  /\ (_h self <=? 0)%float = true
  /\ snd (filter self) = []
  /\ strictly_increasing (snd (filter self)).
Proof.
  repeat split. constructor.
Qed.

(** C9, amended. With a threshold h <= 0, [filter()] appends every
    position of the sequence twice, in order: both tests hold at every
    step, the second against the reset value. Each position occurs
    exactly twice in the returned list, and on a non-empty sequence the
    list is not strictly increasing. *)
Theorem filter_nonpositive_threshold (self : CumSumFilter.t float) :
  (_h self <=? 0)%float = true ->
  let ev := snd (filter self) in
  let n := length (_data self) in
  ev = doubled 0 n
  /\ _events (fst (filter self)) = ev
  /\ (forall i, i < n -> count_occ Nat.eq_dec ev i = 2)
  /\ (forall i, n <= i -> count_occ Nat.eq_dec ev i = 0)
  /\ (forall st i v,
        step (_h self) st (i, v)
        = {| s_plus := zero; s_minus := zero;
             events := events st ++ [i; i] |})
  /\ (_data self <> [] -> ~ strictly_increasing ev).
Proof.
  intros Hh ev n.
  pose proof (float_plus_reaches _ Hh) as Hp.
  pose proof (float_reset_reaches _ Hh) as Hr.
  assert (Hev : ev = doubled 0 n).
  { unfold ev, filter. cbn [snd]. rewrite run_is_run_from.
    now rewrite (run_from_doubled _ Hp Hr). }
  split; [exact Hev|]. split; [reflexivity|]. rewrite Hev.
  split; [|split; [|split]].
  - intros i Hi. rewrite count_occ_doubled.
    destruct (Nat.ltb_spec i (0 + n)); [reflexivity | lia].
  - intros i Hi. rewrite count_occ_doubled.
    destruct (Nat.ltb_spec i (0 + n)); [lia|].
    now rewrite andb_false_r.
  - intros st i v. now apply step_twice.
  - intros Hd. apply doubled_not_increasing. unfold n.
    destruct (_data self); [congruence | discriminate].
Qed.

Lemma filter_nonpositive_threshold_witness :
  snd (filter (mk None [0.1; -0.2]%float (-1)%float [])) = [0; 0; 1; 1].
Proof.
  assert (Hh : (_h (mk None [0.1; -0.2]%float (-1)%float []) <=? 0)%float
               = true) by reflexivity.
  destruct (filter_nonpositive_threshold
              (mk None [0.1; -0.2]%float (-1)%float []) Hh) as (Hev & _).
  exact Hev.
Defined.

End FilterProperties.

(** * Properties of ETFTrick *)

Section EtfProperties.
Open Scope nat_scope.

Section EtfFacts.
Context {T : Type} `{Num T}.
Import ETFTrick.

(** What [__init__] leaves behind, whatever it was given. *)
Lemma init_inv (prices : prices_input T) (weights : weights_input T)
    (nw : bool) (self : t T) (warns : list (warning T)) :
  init prices weights nw = Ok (self, warns) ->
  _returns self = None /\ _cumulative_returns self = None
  /\ _etf_returns self = None /\ _etf_cumulative_returns self = None
  /\ (_prices_type self = KDataFrame ->
      _index self <> None /\ _columns_names self <> None).
Proof.
  unfold init, init_checked.
  destruct prices as [ncols rows | idx columns rows |];
    destruct weights as [w | widx w |]; try discriminate;
    match goal with
    | |- context [negb (length ?w =? ?n)] =>
        destruct (negb (length w =? n)); try discriminate
    end;
    destruct (negb (isclose (sum w) one)), nw;
    intros [= <- <-]; cbn; repeat split; congruence.
Qed.

(** The weights [__init__] stores, by the outcome of [np.isclose]. *)
Lemma init_weights (prices : prices_input T) (weights : weights_input T)
    (ws : list T) (self : t T) (warns : list (warning T)) :
  (weights = WeightsNdArray ws \/ exists idx, weights = WeightsSeries idx ws) ->
  init prices weights true = Ok (self, warns) ->
  (isclose (sum ws) one = true -> _weights self = ws /\ warns = [])
  /\ (isclose (sum ws) one = false ->
      _weights self = map (fun w => div w (sum ws)) ws
      /\ warns = [WeightsNormalized (sum ws)
                    (map (fun w => div w (sum ws)) ws)]).
Proof.
  intros Hw. unfold init, init_checked.
  destruct prices as [ncols rows | idx columns rows |];
    destruct Hw as [-> | [widx ->]]; try discriminate;
    match goal with
    | |- context [negb (length ?w =? ?n)] =>
        destruct (negb (length w =? n)); try discriminate
    end;
    destruct (isclose (sum ws) one); cbn;
    intros [= <- <-]; cbn; split; intros; try discriminate; now split.
Qed.

(** After [fit()] the four accessors return. *)
Lemma fit_accessors (self : t T) :
  (_prices_type self = KDataFrame ->
   _index self <> None /\ _columns_names self <> None) ->
  (exists r, returns (fit self) = Ok r)
  /\ (exists r, cumulative_returns (fit self) = Ok r)
  /\ (exists r, etf_returns (fit self) = Ok r)
  /\ (exists r, etf_cumulative_returns (fit self) = Ok r).
Proof.
  intros Hk.
  unfold returns, cumulative_returns, etf_returns, etf_cumulative_returns,
    frame_view, series_view, index_tail, names, fit. cbn.
  destruct (_prices_type self).
  - repeat split; eexists; reflexivity.
  - destruct (Hk eq_refl) as [Hi Hc].
    destruct (_index self); [|congruence].
    destruct (_columns_names self); [|congruence].
    cbn. repeat split; eexists; reflexivity.
Qed.
End EtfFacts.

(** C2, as stated, fails for CumSumFilter: [__init__] sets [_events] to the
    empty list, so before [filter()] the accessor [events_index] returns
    [[]] and [filtered_events] returns the empty selection; neither
    raises. *)
Lemma events_accessors_before_filter :
  let self := CumSumFilter.mk None [0.1; -0.2]%float 0.3%float [] in
  CumSumFilter.init (CumSumFilter.NdArray [0.1; -0.2]%float) 0.3%float
  = Ok self
  /\ CumSumFilter.events_index self = Ok []
  /\ CumSumFilter.filtered_events self = Ok []
  /\ (forall e, CumSumFilter.events_index self <> Raise e)
  /\ (forall e, CumSumFilter.filtered_events self <> Raise e).
Proof.
  repeat split; discriminate.
Qed.

(** C2, amended. For every ETFTrick instance, each of [returns],
    [cumulative_returns], [etf_returns] and [etf_cumulative_returns]
    raises [KeyError] before [fit()] and returns after it. For every
    CumSumFilter instance, before [filter()] the accessor [events_index]
    returns the empty list and [filtered_events] the empty selection. *)
Theorem accessors_before_producing {T : Type} `{Num T}
    (prices : ETFTrick.prices_input T) (weights : ETFTrick.weights_input T)
    (nw : bool) (etf : ETFTrick.t T) (warns : list (ETFTrick.warning T))
    (log_returns : CumSumFilter.input T) (h : T) (flt : CumSumFilter.t T) :
  ETFTrick.init prices weights nw = Ok (etf, warns) ->
  CumSumFilter.init log_returns h = Ok flt ->
  (ETFTrick.returns etf = Raise KeyError
   /\ ETFTrick.cumulative_returns etf = Raise KeyError
   /\ ETFTrick.etf_returns etf = Raise KeyError
   /\ ETFTrick.etf_cumulative_returns etf = Raise KeyError)
  /\ ((exists r, ETFTrick.returns (ETFTrick.fit etf) = Ok r)
      /\ (exists r, ETFTrick.cumulative_returns (ETFTrick.fit etf) = Ok r)
      /\ (exists r, ETFTrick.etf_returns (ETFTrick.fit etf) = Ok r)
      /\ (exists r, ETFTrick.etf_cumulative_returns (ETFTrick.fit etf) = Ok r))
  /\ CumSumFilter.events_index flt = Ok []
  /\ CumSumFilter.filtered_events flt = Ok [].
Proof.
  intros He Hf.
  destruct (init_inv _ _ _ _ _ He) as (H1 & H2 & H3 & H4 & Hk).
  split; [|split].
  - unfold ETFTrick.returns, ETFTrick.cumulative_returns,
      ETFTrick.etf_returns, ETFTrick.etf_cumulative_returns.
    rewrite H1, H2, H3, H4. repeat split.
  - now apply fit_accessors.
  - unfold CumSumFilter.init in Hf.
    destruct log_returns as [vs | idx vs | idx cols |]; try discriminate.
    + injection Hf as <-. split; reflexivity.
    + injection Hf as <-. split; reflexivity.
    + destruct cols as [|c [|c' cols]]; try discriminate.
      injection Hf as <-. split; reflexivity.
Qed.

Lemma accessors_before_producing_witness :
  ETFTrick.etf_returns
    (ETFTrick.mk ETFTrick.KNdArray [[1; 2]; [2; 3]]%float 2 None None
       [0.25; 0.75]%float None None None None)
  = Raise KeyError
  /\ CumSumFilter.events_index
       (CumSumFilter.mk None [0.1; -0.2]%float 0.3%float [])
     = Ok [].
Proof.
  assert (He : ETFTrick.init
                 (ETFTrick.PricesNdArray 2 [[1; 2]; [2; 3]]%float)
                 (ETFTrick.WeightsNdArray [0.25; 0.75]%float) true
               = Ok (ETFTrick.mk ETFTrick.KNdArray [[1; 2]; [2; 3]]%float 2
                       None None [0.25; 0.75]%float None None None None,
                     [])) by (vm_compute; reflexivity).
  assert (Hf : CumSumFilter.init
                 (CumSumFilter.NdArray [0.1; -0.2]%float) 0.3%float
               = Ok (CumSumFilter.mk None [0.1; -0.2]%float 0.3%float []))
    by reflexivity.
  destruct (accessors_before_producing _ _ _ _ _ _ _ _ He Hf)
    as ((_ & _ & Hr & _) & _ & Hi & _).
  split; [exact Hr | exact Hi].
Defined.

(** ** Weight normalisation *)

(** C4, as stated, fails: the weights [0.5, 0.500001] sum to
    S = 1.000001, which is not 1.0 and is further from it than 1e-8, yet
    [np.isclose(S, 1.0)] holds (its tolerance is atol + rtol * 1.0, about
    1.001e-5), so [__init__] keeps the weights: they are not original / S
    and their sum is not within 1e-8 of 1.0. *)
Lemma weights_within_isclose_are_kept :
  let ws := [0.5; 0.500001]%float in
  let S := sum ws in
  (S =? 1)%float = false
  /\ (abs (S - 1) <? 1e-8)%float = false
  /\ isclose S 1%float = true
  /\ ETFTrick.init (ETFTrick.PricesNdArray 2 [[1; 2]; [2; 3]]%float)
       (ETFTrick.WeightsNdArray ws) true
     = Ok (ETFTrick.mk ETFTrick.KNdArray [[1; 2]; [2; 3]]%float 2 None None
             ws None None None None, [])
  /\ ws <> map (fun w => w / S)%float ws
  /\ (abs (sum ws - 1) <=? 1e-8)%float = false.
Proof.
  repeat split; try (vm_compute; reflexivity).
  intros E.
  apply (f_equal (fun l => match l with
                           | x :: _ => (x =? 0.5)%float
                           | [] => true
                           end)) in E.
  vm_compute in E. discriminate.
Qed.

(** A weight vector that sums to 0 is rescaled by a division by zero. *)
Example weights_summing_to_zero :
  ETFTrick.init (ETFTrick.PricesNdArray 2 [[1; 2]; [2; 3]]%float)
    (ETFTrick.WeightsNdArray [1; -1]%float) true
  = Ok (ETFTrick.mk ETFTrick.KNdArray [[1; 2]; [2; 3]]%float 2 None None
          [infinity; neg_infinity] None None None None,
        [ETFTrick.WeightsNormalized 0%float [infinity; neg_infinity]]).
Proof. vm_compute. reflexivity. Qed.

Lemma Qsum_scaled (S : Q) (ws : list Q) (a b : Q) :
  (a == b / S)%Q ->
  (fold_left Qplus (map (fun w => w / S)%Q ws) a
   == fold_left Qplus ws b / S)%Q.
Proof.
  revert a b. induction ws as [|w ws IH]; intros a b Hab; simpl.
  - exact Hab.
  - apply IH. rewrite Hab. unfold Qdiv. ring.
Qed.

Lemma Q_isclose_spec (a b : Q) :
  isclose a b = true
  <-> (Qabs (a - b) <= (1 # 100000000) + (1 # 100000) * Qabs b)%Q.
Proof. unfold isclose. cbn. apply Qle_bool_iff. Qed.

(** C4, amended. [__init__] rescales exactly when [np.isclose(S, 1.0)]
    fails, that is when abs(S - 1) > 1e-8 + 1e-5 * abs(1.0). For every
    weight vector whose sum S fails that test, construction with
    normalisation enabled stores original / S for each weight, and, over
    exact arithmetic and for S other than 0, the stored weights sum to 1.
    When the test holds the weights are stored as given. *)
Theorem weights_normalized_outside_isclose
    (prices : ETFTrick.prices_input Q) (weights : ETFTrick.weights_input Q)
    (ws : list Q) (self : ETFTrick.t Q) (warns : list (ETFTrick.warning Q)) :
  (weights = ETFTrick.WeightsNdArray ws
   \/ exists idx, weights = ETFTrick.WeightsSeries idx ws) ->
  ETFTrick.init prices weights true = Ok (self, warns) ->
  let S := sum ws in
  (isclose S 1%Q = true
   <-> (Qabs (S - 1) <= (1 # 100000000) + (1 # 100000) * Qabs 1)%Q)
  /\ (isclose S 1%Q = true -> ETFTrick._weights self = ws /\ warns = [])
  /\ (isclose S 1%Q = false ->
      ETFTrick._weights self = map (fun w => w / S)%Q ws
      /\ warns = [ETFTrick.WeightsNormalized S (map (fun w => w / S)%Q ws)]
      /\ (~ (S == 0)%Q ->
          (sum (ETFTrick._weights self) == 1)%Q
          /\ (Qabs (sum (ETFTrick._weights self) - 1) < 1 # 100000000)%Q)).
Proof.
  intros Hw Hi S.
  destruct (init_weights prices weights ws self warns Hw Hi) as [Hc Hn].
  split; [apply Q_isclose_spec|]. split; [exact Hc|].
  intros Hf. destruct (Hn Hf) as [Hws Hwarn].
  split; [exact Hws|]. split; [exact Hwarn|].
  intros HS.
  assert (Hsum : (sum (ETFTrick._weights self) == 1)%Q).
  { rewrite Hws. unfold sum. cbn [add zero Q_Num].
    eapply Qeq_trans;
      [apply (Qsum_scaled S ws 0 0)%Q; unfold Qdiv; ring|].
    unfold Qdiv. apply Qmult_inv_r. exact HS. }
  split; [exact Hsum|]. rewrite Hsum. reflexivity.
Qed.

Lemma weights_normalized_outside_isclose_witness :
  (sum [1 / 4; 3 / 4] == 1)%Q.
Proof.
  assert (Hi : ETFTrick.init
                 (ETFTrick.PricesNdArray 2 [[1; 2]; [2; 3]]%Q)
                 (ETFTrick.WeightsNdArray [1; 3]%Q) true
               = Ok (ETFTrick.mk ETFTrick.KNdArray [[1; 2]; [2; 3]]%Q 2
                       None None [1 / 4; 3 / 4]%Q None None None None,
                     [ETFTrick.WeightsNormalized 4%Q [1 / 4; 3 / 4]%Q]))
    by reflexivity.
  destruct (weights_normalized_outside_isclose _ _ [1; 3]%Q _ _
              (or_introl eq_refl) Hi) as (_ & _ & Hn).
  assert (Hf : isclose (sum [1; 3]%Q) 1%Q = false) by reflexivity.
  assert (HS : ~ (sum [1; 3]%Q == 0)%Q) by (vm_compute; discriminate).
  destruct (Hn Hf) as (_ & _ & Hs).
  exact (proj1 (Hs HS)).
Defined.

(** ** Cumulative returns *)

Section CumprodFacts.
Context {T : Type} `{Num T}.
Import ETFTrick.

Lemma prod_from_shift (prev : T) (f : nat -> T) (t : nat) :
  prod_from (mul prev (f 0)) (fun k => f (S k)) t = prod_from prev f (S t).
Proof.
  induction t as [|t IH]; [reflexivity|].
  cbn [prod_from] in *. now rewrite IH.
Qed.

Lemma prod_upto_shift (f : nat -> T) (t : nat) :
  prod_from (f 0) (fun k => f (S k)) t = prod_upto f (S t).
Proof.
  induction t as [|t IH]; [reflexivity|].
  cbn [prod_from prod_upto] in *. now rewrite IH.
Qed.

Lemma prod_from_ext (prev : T) (f g : nat -> T) (t : nat) :
  (forall k, k <= t -> f k = g k) ->
  prod_from prev f t = prod_from prev g t.
Proof.
  induction t as [|t IH]; intros E; cbn [prod_from].
  - now rewrite E.
  - rewrite IH, E; auto.
Qed.

Lemma prod_upto_ext (f g : nat -> T) (t : nat) :
  (forall k, k <= t -> f k = g k) ->
  prod_upto f t = prod_upto g t.
Proof.
  induction t as [|t IH]; intros E; cbn [prod_upto].
  - now rewrite E.
  - rewrite IH, E; auto.
Qed.

Lemma length_cumprod_from (prev : T) (xs : list T) :
  length (cumprod_from prev xs) = length xs.
Proof.
  revert prev. induction xs as [|x xs IH]; intros prev; simpl;
    [reflexivity | now rewrite IH].
Qed.

Lemma length_cumprod (xs : list T) : length (cumprod xs) = length xs.
Proof.
  destruct xs; simpl; [reflexivity | now rewrite length_cumprod_from].
Qed.

Lemma cumprod_from_nth (xs : list T) (prev d : T) (t : nat) :
  t < length xs ->
  nth t (cumprod_from prev xs) d = prod_from prev (fun k => nth k xs d) t.
Proof.
  revert prev t. induction xs as [|x xs IH]; intros prev t Ht;
    [simpl in Ht; lia|].
  destruct t as [|t]; [reflexivity|].
  cbn [cumprod_from nth]. rewrite IH by (simpl in Ht; lia).
  now rewrite <- prod_from_shift.
Qed.

(** [np.cumprod] at position [t] is the product of the first [t + 1]
    entries. *)
Lemma cumprod_nth (xs : list T) (d : T) (t : nat) :
  t < length xs ->
  nth t (cumprod xs) d = prod_upto (fun k => nth k xs d) t.
Proof.
  destruct xs as [|x xs]; intros Ht; [simpl in Ht; lia|].
  destruct t as [|t]; [reflexivity|].
  cbn [cumprod nth]. rewrite cumprod_from_nth by (simpl in Ht; lia).
  now rewrite <- prod_upto_shift.
Qed.

Lemma length_map2 (f : T -> T -> T) (r1 r2 : list T) :
  length (map2 f r1 r2) = Nat.min (length r1) (length r2).
Proof. unfold map2. now rewrite length_map, length_combine. Qed.

Lemma map2_nth (f : T -> T -> T) (r1 r2 : list T) (d : T) (n : nat) :
  n < length r1 -> n < length r2 ->
  nth n (map2 f r1 r2) d = f (nth n r1 d) (nth n r2 d).
Proof.
  revert r2 n. induction r1 as [|x r1 IH]; intros r2 n H1 H2;
    [simpl in H1; lia|].
  destruct r2 as [|y r2]; [simpl in H2; lia|].
  destruct n as [|n]; [reflexivity|].
  unfold map2 in *. simpl. apply IH; simpl in *; lia.
Qed.

Lemma map_nth_in {A B : Type} (f : A -> B) (l : list A) (d : B) (d' : A)
    (n : nat) :
  n < length l -> nth n (map f l) d = f (nth n l d').
Proof.
  intros Hn. rewrite (nth_indep _ d (f d')) by now rewrite length_map.
  apply map_nth.
Qed.

Lemma length_cumprod_rows_from (prev : list T) (m : matrix T) :
  length (cumprod_rows_from prev m) = length m.
Proof.
  revert prev. induction m as [|r m IH]; intros prev; simpl;
    [reflexivity | now rewrite IH].
Qed.

Lemma length_cumprod_rows (m : matrix T) :
  length (cumprod_rows m) = length m.
Proof.
  destruct m; simpl; [reflexivity | now rewrite length_cumprod_rows_from].
Qed.

Lemma cumprod_rows_from_nth (N : nat) (m : matrix T) (prev : list T)
    (d : T) (t n : nat) :
  rectangular N m -> length prev = N -> t < length m -> n < N ->
  nth n (nth t (cumprod_rows_from prev m) []) d
  = prod_from (nth n prev d) (fun k => nth n (nth k m []) d) t.
Proof.
  revert prev t. induction m as [|r m IH]; intros prev t Hm Hp Ht Hn;
    [simpl in Ht; lia|].
  apply Forall_cons_iff in Hm. destruct Hm as [Hr Hm'].
  destruct t as [|t].
  - cbn [cumprod_rows_from nth prod_from]. apply map2_nth; lia.
  - cbn [cumprod_rows_from nth].
    rewrite IH; try assumption; try (simpl in Ht; lia).
    + rewrite map2_nth by lia.
      now rewrite <- (prod_from_shift (nth n prev d)
                        (fun k => nth n (nth k (r :: m) []) d)).
    + rewrite length_map2, Hp, Hr. apply Nat.min_id.
Qed.

(** [np.cumprod(m, axis=0)] at row [t], column [n] is the product of
    the first [t + 1] entries of column [n]. *)
Lemma cumprod_rows_nth (N : nat) (m : matrix T) (d : T) (t n : nat) :
  rectangular N m -> t < length m -> n < N ->
  nth n (nth t (cumprod_rows m) []) d
  = prod_upto (fun k => nth n (nth k m []) d) t.
Proof.
  destruct m as [|r m]; intros Hm Ht Hn; [simpl in Ht; lia|].
  apply Forall_cons_iff in Hm. destruct Hm as [Hr Hm'].
  destruct t as [|t]; [reflexivity|].
  cbn [cumprod_rows nth].
  rewrite (cumprod_rows_from_nth N); try assumption;
    try (simpl in Ht; lia).
  now rewrite <- (prod_upto_shift (fun k => nth n (nth k (r :: m) []) d)).
Qed.

Lemma rectangular_simple_returns (N : nat) (prices : matrix T) :
  rectangular N prices -> rectangular N (simple_returns prices).
Proof.
  intros Hp. unfold simple_returns, rectangular. apply Forall_map.
  apply Forall_forall. intros [p q] Hin. cbn [fst snd].
  rewrite length_map2.
  assert (Hl : length p = N).
  { apply in_combine_l in Hin. destruct prices; [contradiction|].
    simpl in Hin. apply Forall_cons_iff in Hp. destruct Hp as [_ Hp].
    exact (proj1 (Forall_forall _ _) Hp _ Hin). }
  assert (Hq : length q = N).
  { apply in_combine_r in Hin.
    assert (Hin' : In q prices).
    { clear -Hin. induction prices as [|a [|b l] IH]; simpl in *;
        [contradiction | contradiction |].
      destruct Hin as [-> | Hin]; [now left | right; now apply IH]. }
    exact (proj1 (Forall_forall _ _) Hp _ Hin'). }
  rewrite Hl, Hq. apply Nat.min_id.
Qed.

Lemma rectangular_plus_one (N : nat) (m : matrix T) :
  rectangular N m -> rectangular N (map plus_one m).
Proof.
  intros Hm. unfold rectangular in *. apply Forall_map.
  eapply Forall_impl; [|exact Hm].
  intros r Hr. unfold plus_one. now rewrite length_map.
Qed.

Lemma rectangular_cumprod_rows_from (N : nat) (prev : list T)
    (m : matrix T) :
  rectangular N m -> length prev = N ->
  rectangular N (cumprod_rows_from prev m).
Proof.
  revert prev. induction m as [|r m IH]; intros prev Hm Hp;
    [constructor|].
  apply Forall_cons_iff in Hm. destruct Hm as [Hr Hm].
  assert (Hl : length (map2 mul prev r) = N)
    by (rewrite length_map2, Hp, Hr; apply Nat.min_id).
  cbn [cumprod_rows_from]. constructor; [exact Hl|].
  now apply IH.
Qed.

Lemma rectangular_cumprod_rows (N : nat) (m : matrix T) :
  rectangular N m -> rectangular N (cumprod_rows m).
Proof.
  destruct m as [|r m]; intros Hm; [constructor|].
  apply Forall_cons_iff in Hm. destruct Hm as [Hr Hm].
  cbn [cumprod_rows]. constructor; [exact Hr|].
  now apply rectangular_cumprod_rows_from.
Qed.

Lemma length_mask_nan (r : list T) : length (mask_nan r) = length r.
Proof. unfold mask_nan. apply length_map. Qed.

Lemma length_restore_nan (orig res : list T) :
  length (restore_nan orig res) = Nat.min (length orig) (length res).
Proof. unfold restore_nan. apply length_map2. Qed.

Lemma length_cumprod_rows_skipna (m : matrix T) :
  length (cumprod_rows_skipna m) = length m.
Proof.
  unfold cumprod_rows_skipna.
  rewrite length_map, length_combine, length_cumprod_rows, length_map.
  apply Nat.min_id.
Qed.

(** [DataFrame.cumprod()] keeps the shape of the frame. *)
Lemma rectangular_cumprod_rows_skipna (N : nat) (m : matrix T) :
  rectangular N m -> rectangular N (cumprod_rows_skipna m).
Proof.
  intros Hm. unfold cumprod_rows_skipna, rectangular. apply Forall_map.
  apply Forall_forall. intros [r c] Hin. cbn [fst snd].
  rewrite length_restore_nan.
  assert (Hr : length r = N).
  { apply in_combine_l in Hin.
    exact (proj1 (Forall_forall _ _) Hm _ Hin). }
  assert (Hc : length c = N).
  { apply in_combine_r in Hin.
    assert (HC : rectangular N (cumprod_rows (map mask_nan m))).
    { apply rectangular_cumprod_rows. unfold rectangular.
      apply Forall_map. eapply Forall_impl; [|exact Hm].
      intros x Hx. now rewrite length_mask_nan. }
    exact (proj1 (Forall_forall _ _) HC _ Hin). }
  rewrite Hr, Hc. apply Nat.min_id.
Qed.

Lemma mask_nan_id (r : list T) :
  Forall (fun x => isnan x = false) r -> mask_nan r = r.
Proof.
  induction 1 as [|x r Hx _ IH]; [reflexivity|].
  unfold mask_nan in *. cbn [map]. now rewrite Hx, IH.
Qed.

Lemma restore_nan_id (orig res : list T) :
  Forall (fun x => isnan x = false) orig ->
  length res = length orig ->
  restore_nan orig res = res.
Proof.
  intros Ho. revert res.
  induction Ho as [|x r Hx _ IH]; intros [|p res] Hl;
    try discriminate; try reflexivity.
  unfold restore_nan, map2 in *. cbn [combine map fst snd].
  rewrite Hx. f_equal. apply IH. simpl in Hl. lia.
Qed.

Lemma restore_rows_id (N : nat) (m C : matrix T) :
  nan_free m -> rectangular N m -> rectangular N C ->
  length C = length m ->
  map (fun rows => restore_nan (fst rows) (snd rows)) (combine m C) = C.
Proof.
  intros Hn. revert C.
  induction Hn as [|r m Hr _ IH]; intros [|c C] Hm HC Hl;
    try discriminate; try reflexivity.
  apply Forall_cons_iff in Hm. destruct Hm as [Hlr Hm].
  apply Forall_cons_iff in HC. destruct HC as [Hlc HC].
  cbn [combine map fst snd]. f_equal.
  - apply restore_nan_id; [exact Hr | congruence].
  - apply IH; try assumption. simpl in Hl. lia.
Qed.

(** On a frame without NaN, [DataFrame.cumprod()] is the running
    product of [np.cumprod]. *)
Lemma cumprod_rows_skipna_nan_free (N : nat) (m : matrix T) :
  rectangular N m -> nan_free m ->
  cumprod_rows_skipna m = cumprod_rows m.
Proof.
  intros Hm Hn. unfold cumprod_rows_skipna.
  assert (E : map mask_nan m = m).
  { clear Hm. induction Hn as [|r m Hr _ IH]; [reflexivity|].
    cbn [map]. now rewrite (mask_nan_id r Hr), IH. }
  rewrite E. apply (restore_rows_id N); try assumption.
  - now apply rectangular_cumprod_rows.
  - apply length_cumprod_rows.
Qed.

Lemma length_simple_returns (prices : matrix T) :
  length (simple_returns prices) = pred (length prices).
Proof.
  unfold simple_returns. rewrite length_map, length_combine.
  destruct prices as [|p ps]; [reflexivity|].
  rewrite removelast_firstn_len, length_firstn. simpl. lia.
Qed.

(** What [fit()] stores, position by position, on any carrier: the
    cumulative entries are the left-to-right products of
    [returns + 1], for a DataFrame as long as [returns + 1] has no
    NaN. *)
Lemma fit_cumulative (self : t T) (N : nat) :
  rectangular N (_prices self) ->
  (_prices_type self = KDataFrame ->
   nan_free (map plus_one (simple_returns (_prices self)))) ->
  exists R C E EC,
    _returns (fit self) = Some R
    /\ _cumulative_returns (fit self) = Some C
    /\ _etf_returns (fit self) = Some E
    /\ _etf_cumulative_returns (fit self) = Some EC
    /\ R = simple_returns (_prices self)
    /\ E = matvec R (_weights self)
    /\ length C = length R /\ length EC = length E
    /\ length E = length R
    /\ (forall t n, t < length R -> n < N ->
          nth n (nth t C []) zero
          = prod_upto (fun k => add (nth n (nth k R []) zero) one) t)
    /\ (forall t, t < length E ->
          nth t EC zero = prod_upto (fun k => add (nth k E zero) one) t).
Proof.
  intros Hp Hnan.
  exists (simple_returns (_prices self)),
    (cumprod_rows (map plus_one (simple_returns (_prices self)))),
    (matvec (simple_returns (_prices self)) (_weights self)),
    (cumprod (plus_one
                (matvec (simple_returns (_prices self)) (_weights self)))).
  pose proof (rectangular_simple_returns N _ Hp) as HR.
  pose proof (rectangular_plus_one N _ HR) as HR1.
  repeat split.
  - unfold fit. cbn.
    destruct (_prices_type self) eqn:Hk; [reflexivity|].
    now rewrite (cumprod_rows_skipna_nan_free N _ HR1 (Hnan eq_refl)).
  - now rewrite length_cumprod_rows, length_map.
  - unfold plus_one. now rewrite length_cumprod, length_map.
  - unfold matvec. now rewrite length_map.
  - intros t n Ht Hn.
    rewrite (cumprod_rows_nth N).
    + apply prod_upto_ext. intros k Hk.
      rewrite (map_nth_in plus_one _ [] []) by lia.
      unfold plus_one.
      apply (map_nth_in (fun x => add x one) _ zero zero).
      assert (Hk' : k < length (simple_returns (_prices self))) by lia.
      pose proof (proj1 (Forall_forall _ _) HR _
                    (nth_In _ [] Hk')) as Hlen.
      simpl in Hlen. lia.
    + exact HR1.
    + now rewrite length_map.
    + exact Hn.
  - intros t Ht.
    rewrite cumprod_nth
      by (unfold plus_one; now rewrite length_map).
    apply prod_upto_ext. intros k Hk.
    unfold plus_one.
    apply (map_nth_in (fun x => add x one) _ zero zero). lia.
Qed.
End CumprodFacts.

Lemma fold_right_Qmult_acc (l : list Q) (a : Q) :
  (fold_right Qmult a l == fold_right Qmult 1 l * a)%Q.
Proof.
  induction l as [|x l IH]; simpl; [ring|]. rewrite IH. ring.
Qed.

Lemma Qprod_S (f : nat -> Q) (t : nat) :
  (Qprod f (S t) == Qprod f t * f (S t))%Q.
Proof.
  unfold Qprod. rewrite (seq_S (S t) 0), map_app, fold_right_app.
  cbn [map fold_right Nat.add]. rewrite fold_right_Qmult_acc. ring.
Qed.

Lemma prod_upto_Qprod (f g : nat -> Q) (t : nat) :
  (forall k, k <= t -> (f k == g k)%Q) ->
  (prod_upto f t == Qprod g t)%Q.
Proof.
  induction t as [|t IH]; intros E.
  - unfold Qprod. cbn. rewrite (E 0) by lia. ring.
  - cbn [prod_upto mul Q_Num]. rewrite Qprod_S, IH, (E (S t)) by auto.
    reflexivity.
Qed.

(** Exact arithmetic has no NaN. *)
Lemma Q_nan_free (m : ETFTrick.matrix Q) : nan_free m.
Proof.
  unfold nan_free. apply Forall_forall. intros r _.
  apply Forall_forall. intros x _. reflexivity.
Qed.

(** Over exact arithmetic the cumulative returns are the products of
    (1 + returns), whatever the container of the prices. *)
Lemma cumulative_returns_exact (self : ETFTrick.t Q) (N : nat) :
  rectangular N (ETFTrick._prices self) ->
  exists R C E EC,
    ETFTrick._returns (ETFTrick.fit self) = Some R
    /\ ETFTrick._cumulative_returns (ETFTrick.fit self) = Some C
    /\ ETFTrick._etf_returns (ETFTrick.fit self) = Some E
    /\ ETFTrick._etf_cumulative_returns (ETFTrick.fit self) = Some EC
    /\ length R = pred (length (ETFTrick._prices self))
    /\ length C = length R /\ length E = length R /\ length EC = length R
    /\ (forall t n, t < length R -> n < N ->
          (nth n (nth t C []) 0
           == Qprod (fun k => 1 + nth n (nth k R []) 0) t)%Q)
    /\ (forall t, t < length R ->
          (nth t EC 0 == Qprod (fun k => 1 + nth k E 0) t)%Q).
Proof.
  intros Hp.
  destruct (fit_cumulative self N Hp (fun _ => Q_nan_free _))
    as (R & C & E & EC & HR & HC & HE & HEC & HRd & _ & HlC & HlEC & HlE
        & Hcum & Hetf).
  exists R, C, E, EC. repeat split; try assumption; try congruence.
  - rewrite HRd. apply length_simple_returns.
  - intros t n Ht Hn. pose proof (Hcum t n Ht Hn) as Hx.
    cbn [zero add one Q_Num] in Hx. rewrite Hx.
    apply prod_upto_Qprod. intros k _. ring.
  - intros t Ht. assert (Ht' : t < length E) by lia.
    pose proof (Hetf t Ht') as Hx.
    cbn [zero add one Q_Num] in Hx. rewrite Hx.
    apply prod_upto_Qprod. intros k _. ring.
Qed.




End EtfProperties.

(** * Further properties of TimeSeriesEmbargoCV *)

Section SplitterMore.
Import TimeSeriesEmbargoCV.
Open Scope Z_scope.

Lemma fold_size_zero_iff (n cv : Z) :
  0 <= n -> cv <> 0 -> (Z.quot n cv = 0 <-> n < Z.abs cv).
Proof.
  intros Hn Hcv. rewrite Z.quot_small_iff by exact Hcv.
  rewrite (Z.abs_eq n) by exact Hn. reflexivity.
Qed.

(** Below 2^53 the fold size the code computes is floor(n / cv). *)
Lemma fold_size_bounded {A : Type} (self : t) (X : list A) (fs : Z) :
  0 < n_splits self ->
  int_truediv (len X) (n_splits self) = Ok fs ->
  len X < 2 ^ 53 ->
  fs = len X / n_splits self.
Proof.
  intros Hcv Hq Hlt.
  pose proof (int_truediv_floor (len X) (n_splits self)
                (conj (len_nonneg X) Hlt) Hcv) as Hq'.
  congruence.
Qed.

(** Which calls fail, for a sequence of length below 2^53:
    [get_n_splits] and [split] raise [ZeroDivisionError] exactly when the
    fold count is 0 or the sequence is shorter than its absolute value
    (the fold size is then 0); in every other case both return, and no
    other exception is raised. *)
Theorem splitter_zero_division {A : Type} (self : t) (X : list A) :
  len X < 2 ^ 53 ->
  (get_n_splits self X = Raise ZeroDivisionError
   <-> n_splits self = 0 \/ len X < Z.abs (n_splits self))
  /\ (split self X = Raise ZeroDivisionError
      <-> n_splits self = 0 \/ len X < Z.abs (n_splits self))
  /\ ((exists k, get_n_splits self X = Ok k)
      <-> n_splits self <> 0 /\ Z.abs (n_splits self) <= len X)
  /\ ((exists folds, split self X = Ok folds)
      <-> n_splits self <> 0 /\ Z.abs (n_splits self) <= len X).
Proof.
  intros Hlt. pose proof (len_nonneg X) as Hn.
  unfold split, get_n_splits.
  destruct (Z.eq_dec (n_splits self) 0) as [E0|N0].
  - assert (Hq : int_truediv (len X) (n_splits self)
                 = Raise ZeroDivisionError).
    { unfold int_truediv. rewrite E0. reflexivity. }
    rewrite Hq. cbn [bind].
    split; [|split; [|split]].
    + split; [intros _; now left | reflexivity].
    + split; [intros _; now left | reflexivity].
    + split; [intros [k Hk]; discriminate | intros [Hc _]; contradiction].
    + split; [intros [k Hk]; discriminate | intros [Hc _]; contradiction].
  - rewrite (int_truediv_small (len X) (n_splits self) (conj Hn Hlt) N0).
    cbn [bind]. unfold floordiv.
    pose proof (fold_size_zero_iff (len X) (n_splits self) Hn N0) as Hq.
    destruct (Z.eqb_spec (Z.quot (len X) (n_splits self)) 0) as [Eq|Nq];
      cbn [bind].
    + apply Hq in Eq. split; [|split; [|split]].
      * split; [intros _; now right | reflexivity].
      * split; [intros _; now right | reflexivity].
      * split; [intros [k Hk]; discriminate | intros [_ Hc]; lia].
      * split; [intros [k Hk]; discriminate | intros [_ Hc]; lia].
    + assert (Hge : Z.abs (n_splits self) <= len X).
      { destruct (Z.lt_ge_cases (len X) (Z.abs (n_splits self))) as [Hl|Hge];
          [apply Hq in Hl; contradiction | exact Hge]. }
      split; [|split; [|split]].
      * split; [discriminate | intros [Hc|Hc]; [contradiction | lia]].
      * split; [discriminate | intros [Hc|Hc]; [contradiction | lia]].
      * split; [intros _; now split | intros _; eexists; reflexivity].
      * split; [intros _; now split | intros _; eexists; reflexivity].
Qed.

Lemma splitter_zero_division_witness :
  get_n_splits (mk 5 0) (repeat tt 3) = Raise ZeroDivisionError
  /\ exists folds, split (mk (-2) 0) (repeat tt 7) = Ok folds.
Proof.
  assert (H3 : len (repeat tt 3) < 2 ^ 53) by reflexivity.
  assert (H7 : len (repeat tt 7) < 2 ^ 53) by reflexivity.
  destruct (splitter_zero_division (mk 5 0) (repeat tt 3) H3)
    as (Hg & _).
  destruct (splitter_zero_division (mk (-2) 0) (repeat tt 7) H7)
    as (_ & _ & _ & Hs).
  split.
  - apply Hg. right. reflexivity.
  - apply Hs. split; [discriminate | vm_compute; discriminate].
Defined.

(** For a positive fold size the test range of fold [i] ends at
    [(i + 2) * fold_size]; it fits the sequence when [i <= n / fs - 2]. *)
Lemma split_loop_exact (self : t) (n fs : Z) (m s : nat) :
  0 < fs ->
  split_loop self n fs (map Z.of_nat (seq s m))
  = map (fold_at self fs)
        (map Z.of_nat
             (seq s (Nat.min m (Z.to_nat (n / fs - 1 - Z.of_nat s))))).
Proof.
  intros Hfs. revert s. induction m as [|m IH]; intros s; [reflexivity|].
  cbn [seq map split_loop].
  pose proof (Z.mul_div_le n fs Hfs) as Hlo.
  pose proof (Z.mul_succ_div_gt n fs Hfs) as Hhi.
  destruct (Z.gtb_spec
              (Z.of_nat s * fs + fs + embargo_size self + fs
               - embargo_size self) n) as [Hgt|Hle].
  - replace (Z.to_nat (n / fs - 1 - Z.of_nat s)) with 0%nat by nia.
    reflexivity.
  - assert (Hs : Z.of_nat s + 2 <= n / fs) by nia.
    replace (Z.to_nat (n / fs - 1 - Z.of_nat s))
      with (S (Z.to_nat (n / fs - 1 - Z.of_nat (S s)))) by lia.
    cbn [Nat.min seq map]. rewrite IH. reflexivity.
Qed.

(** The generator as a closed form, with [fs] the fold size
    [int(n / cv)]: the pairs [fold_at self fs i] for [i] below both the
    number [get_n_splits] reports and [n / fs - 1]. *)
Lemma split_exact {A : Type} (self : t) (X : list A) (fs : Z) :
  int_truediv (len X) (n_splits self) = Ok fs ->
  0 < fs ->
  let k := Z.min (n_splits self) ((len X - embargo_size self) / fs) in
  split self X
  = Ok (map (fold_at self fs) (range (Z.min k (len X / fs - 1)))).
Proof.
  intros Hq Hpos k.
  assert (Hnz : fs <> 0) by lia.
  rewrite (split_value self X fs Hq Hnz). fold k. f_equal.
  unfold range. rewrite (split_loop_exact self (len X) fs _ 0 Hpos).
  do 3 f_equal. cbn [Z.of_nat]. lia.
Qed.

Lemma length_range (k : Z) : length (range k) = Z.to_nat k.
Proof. unfold range. now rewrite length_map, length_seq. Qed.

Lemma nth_error_range (k : Z) (j : nat) :
  (j < Z.to_nat k)%nat -> nth_error (range k) j = Some (Z.of_nat j).
Proof.
  intros Hj. unfold range.
  rewrite nth_error_map, nth_error_seq.
  destruct (Nat.ltb_spec j (Z.to_nat k)); [reflexivity | lia].
Qed.

(** How many pairs [split] yields, for a sequence of any length, with
    [fs] the fold size [int(n / cv)] the code computes (floor(n / cv)
    below 2^53) and [k] what [get_n_splits] returns: min(k, n / fs - 1),
    or none when that is negative. It never yields more pairs than
    max(0, k), nor more than cv, and the j-th pair is the one built at
    fold index j. *)
Theorem split_yield_count {A : Type} (self : t) (X : list A)
    (folds : list fold) :
  0 < n_splits self ->
  split self X = Ok folds ->
  exists fs k,
    int_truediv (len X) (n_splits self) = Ok fs
    /\ (len X < 2 ^ 53 -> fs = len X / n_splits self)
    /\ 0 < fs
    /\ get_n_splits self X = Ok k
    /\ k = Z.min (n_splits self) ((len X - embargo_size self) / fs)
    /\ length folds = Z.to_nat (Z.min k (len X / fs - 1))
    /\ Z.of_nat (length folds) <= Z.max 0 k
    /\ Z.of_nat (length folds) <= n_splits self
    /\ forall j, (j < length folds)%nat ->
         nth_error folds j = Some (fold_at self fs (Z.of_nat j)).
Proof.
  intros Hcv Hs.
  destruct (split_ok_fold_size self X folds Hcv Hs) as (fs & Hq & Hpos).
  assert (Hnz : fs <> 0) by lia.
  exists fs, (Z.min (n_splits self) ((len X - embargo_size self) / fs)).
  rewrite (split_exact self X fs Hq Hpos) in Hs.
  injection Hs as <-.
  rewrite length_map, length_range.
  split; [exact Hq|].
  split; [now apply fold_size_bounded|].
  split; [exact Hpos|].
  split; [now apply get_n_splits_value|]. split; [reflexivity|].
  split; [reflexivity|]. split; [lia|]. split; [lia|].
  intros j Hj. rewrite nth_error_map, nth_error_range by exact Hj.
  reflexivity.
Qed.

Lemma split_yield_count_witness :
  exists fs k,
    get_n_splits (mk 4 2) (repeat tt 10) = Ok k
    /\ length [(arange 0 2, arange 4 4); (arange 2 4, arange 6 6);
               (arange 4 6, arange 8 8); (arange 6 8, arange 10 10)]
       = Z.to_nat (Z.min k (10 / fs - 1)).
Proof.
  assert (Hcv : 0 < n_splits (mk 4 2)) by reflexivity.
  destruct (split_yield_count (mk 4 2) (repeat tt 10)
              [(arange 0 2, arange 4 4); (arange 2 4, arange 6 6);
               (arange 4 6, arange 8 8); (arange 6 8, arange 10 10)]
              Hcv eq_refl) as (fs & k & _ & _ & _ & Hk & _ & Hl & _).
  exists fs, k. split; [exact Hk | exact Hl].
Defined.

(** When cv divides a length below 2^53, the two counts agree only with
    an embargo: with embargo_size = 0, [get_n_splits] reports cv and
    [split] yields cv - 1 pairs; with 0 < embargo_size <= fold size, both
    are cv - 1. *)
Theorem split_divisible_length {A : Type} (self : t) (X : list A) (fs : Z) :
  0 < n_splits self ->
  0 < fs ->
  len X = n_splits self * fs ->
  len X < 2 ^ 53 ->
  0 <= embargo_size self <= fs ->
  exists folds,
    split self X = Ok folds
    /\ Z.of_nat (length folds) = n_splits self - 1
    /\ (embargo_size self = 0 -> get_n_splits self X = Ok (n_splits self))
    /\ (0 < embargo_size self ->
        get_n_splits self X = Ok (n_splits self - 1)).
Proof.
  intros Hcv Hfs Hn Hlt He.
  assert (Hdiv : len X / n_splits self = fs).
  { rewrite Hn, Z.mul_comm. apply Z.div_mul. lia. }
  pose proof (int_truediv_floor (len X) (n_splits self)
                (conj (len_nonneg X) Hlt) Hcv) as Hq.
  rewrite Hdiv in Hq.
  assert (Hnz : fs <> 0) by lia.
  assert (Hd : len X / fs = n_splits self).
  { rewrite Hn. apply Z.div_mul. lia. }
  assert (Hb : embargo_size self = 0
               /\ (len X - embargo_size self) / fs = n_splits self
               \/ 0 < embargo_size self
                  /\ (len X - embargo_size self) / fs = n_splits self - 1).
  { destruct (Z.eq_dec (embargo_size self) 0) as [E|NE].
    - left. split; [exact E|]. now rewrite E, Z.sub_0_r.
    - right. split; [lia|]. symmetry.
      apply (Z.div_unique_pos _ _ _ (fs - embargo_size self)); nia. }
  eexists. split; [apply (split_exact self X fs Hq Hfs)|].
  rewrite length_map, length_range, Hd.
  rewrite (get_n_splits_value self X fs Hq Hnz).
  destruct Hb as [[E0 ->] | [Epos ->]].
  - split; [lia|]. split; [intros _; f_equal; lia | lia].
  - split; [lia|]. split; [lia | intros _; f_equal; lia].
Qed.

Lemma split_divisible_length_witness :
  get_n_splits (mk 5 0) (repeat tt 100) = Ok 5
  /\ get_n_splits (mk 5 3) (repeat tt 100) = Ok 4.
Proof.
  assert (H5 : 0 < 5) by reflexivity.
  assert (H20 : 0 < 20) by reflexivity.
  assert (Hlt : len (repeat tt 100) < 2 ^ 53) by reflexivity.
  assert (He0 : 0 <= embargo_size (mk 5 0) <= 20) by (cbn; lia).
  assert (He3 : 0 <= embargo_size (mk 5 3) <= 20) by (cbn; lia).
  destruct (split_divisible_length (mk 5 0) (repeat tt 100) 20 H5 H20
              eq_refl Hlt He0) as (f0 & _ & _ & Hg0 & _).
  destruct (split_divisible_length (mk 5 3) (repeat tt 100) 20 H5 H20
              eq_refl Hlt He3) as (f3 & _ & _ & _ & Hg3).
  split; [exact (Hg0 eq_refl) | exact (Hg3 eq_refl)].
Defined.

(** What a yielded pair looks like, read off the loop. *)
Lemma split_nth {A : Type} (self : t) (X : list A) (folds : list fold)
    (j : nat) (f : fold) :
  0 < n_splits self ->
  split self X = Ok folds ->
  nth_error folds j = Some f ->
  exists fs,
    int_truediv (len X) (n_splits self) = Ok fs
    /\ 0 < fs /\ f = fold_at self fs (Z.of_nat j)
    /\ (Z.of_nat j + 2) * fs <= len X.
Proof.
  intros Hcv Hs Hj.
  destruct (split_ok_fold_size self X folds Hcv Hs) as (fs & Hq & Hpos).
  assert (Hnz : fs <> 0) by lia.
  exists fs. split; [exact Hq|]. split; [exact Hpos|].
  rewrite (split_value self X fs Hq Hnz) in Hs. injection Hs as Hs.
  unfold range in Hs. rewrite <- Hs in Hj.
  apply split_loop_nth in Hj. cbn [Nat.add] in Hj. destruct Hj as [-> Hb].
  split; [reflexivity | lia].
Qed.

(** Sizes, for a sequence of any length, with [fs] the fold size
    [int(n / cv)] the code computes (floor(n / cv) below 2^53): every
    yielded train range has exactly [fs] indices and every yielded test
    range [fs] minus embargo_size of them, none when the embargo is at
    least the fold size; the pair spans twice the fold size. *)
Theorem split_fold_sizes {A : Type} (self : t) (X : list A)
    (folds : list fold) (j : nat) (train test : list Z) :
  0 < n_splits self ->
  split self X = Ok folds ->
  nth_error folds j = Some (train, test) ->
  exists fs,
    int_truediv (len X) (n_splits self) = Ok fs
    /\ (len X < 2 ^ 53 -> fs = len X / n_splits self)
    /\ 0 < fs
    /\ Z.of_nat (length train) = fs
    /\ Z.of_nat (length test) = Z.max 0 (fs - embargo_size self)
    /\ (fs <= embargo_size self -> test = [])
    /\ hd_error train = Some (Z.of_nat j * fs)
    /\ (forall y, In y test -> y < Z.of_nat j * fs + 2 * fs).
Proof.
  intros Hcv Hs Hj.
  destruct (split_nth self X folds j _ Hcv Hs Hj)
    as (fs & Hq & Hpos & Hf & _).
  exists fs. split; [exact Hq|].
  split; [now apply fold_size_bounded|]. split; [exact Hpos|].
  unfold fold_at in Hf. injection Hf as -> ->.
  rewrite !length_arange.
  split; [lia|]. split; [lia|]. split; [|split].
  - intros He. unfold arange.
    replace (Z.to_nat _) with 0%nat by lia. reflexivity.
  - unfold arange.
    replace (Z.to_nat (Z.of_nat j * fs + fs - Z.of_nat j * fs))
      with (S (Z.to_nat (fs - 1))) by lia.
    cbn [seq map hd_error]. f_equal. lia.
  - intros y Hy. apply In_arange in Hy. lia.
Qed.

Lemma split_fold_sizes_witness :
  exists fs,
    int_truediv 100 5 = Ok fs
    /\ Z.of_nat (length (arange 20 40)) = fs
    /\ Z.of_nat (length (arange 43 60)) = Z.max 0 (fs - 3).
Proof.
  assert (Hcv : 0 < n_splits (mk 5 3)) by reflexivity.
  destruct (split_fold_sizes (mk 5 3) (repeat tt 100)
              [(arange 0 20, arange 23 40); (arange 20 40, arange 43 60);
               (arange 40 60, arange 63 80); (arange 60 80, arange 83 100)]
              1 (arange 20 40) (arange 43 60) Hcv eq_refl eq_refl)
    as (fs & Hq & _ & _ & Htr & Hte & _).
  exists fs. split; [exact Hq|]. split; [exact Htr | exact Hte].
Defined.

(** The windows slide: every index of the test range of a yielded pair
    is an index of the train range of the next yielded pair. *)
Theorem split_test_in_next_train {A : Type} (self : t) (X : list A)
    (folds : list fold) (j : nat) (f g : fold) :
  0 < n_splits self ->
  0 <= embargo_size self ->
  split self X = Ok folds ->
  nth_error folds j = Some f ->
  nth_error folds (S j) = Some g ->
  forall y, In y (snd f) -> In y (fst g).
Proof.
  intros Hcv He Hs Hf Hg y Hy.
  destruct (split_nth self X folds j _ Hcv Hs Hf)
    as (fs & Hq & Hpos & -> & _).
  destruct (split_nth self X folds (S j) _ Hcv Hs Hg)
    as (fs' & Hq' & _ & -> & _).
  assert (E : fs' = fs) by congruence. subst fs'.
  unfold fold_at in *. cbn [fst snd] in *.
  apply In_arange in Hy. apply In_arange. lia.
Qed.

Lemma split_test_in_next_train_witness :
  In 30 (arange 20 40).
Proof.
  assert (Hcv : 0 < n_splits (mk 5 3)) by reflexivity.
  assert (He : 0 <= embargo_size (mk 5 3)) by (cbn; lia).
  assert (Hy : In 30 (snd (arange 0 20, arange 23 40)))
    by (apply In_arange; lia).
  exact (split_test_in_next_train (mk 5 3) (repeat tt 100)
           [(arange 0 20, arange 23 40); (arange 20 40, arange 43 60);
            (arange 40 60, arange 63 80); (arange 60 80, arange 83 100)]
           0 (arange 0 20, arange 23 40) (arange 20 40, arange 43 60)
           Hcv He eq_refl eq_refl eq_refl 30 Hy).
Defined.

Lemma map_seq_offset {B : Type} (f : nat -> B) (s m : nat) :
  map f (seq s m) = map (fun k => f (s + k)%nat) (seq 0 m).
Proof.
  revert f s. induction m as [|m IH]; intros f s; [reflexivity|].
  cbn [seq map]. rewrite Nat.add_0_r. f_equal.
  rewrite (IH f (S s)), (IH (fun k => f (s + k)%nat) 1%nat).
  apply map_ext. intros k. f_equal. lia.
Qed.

Lemma arange_app (a b c : Z) :
  a <= b -> b <= c -> arange a b ++ arange b c = arange a c.
Proof.
  intros Hab Hbc. unfold arange.
  replace (Z.to_nat (c - a))
    with (Z.to_nat (b - a) + Z.to_nat (c - b))%nat by lia.
  rewrite seq_app, map_app. f_equal. cbn [Nat.add].
  rewrite (map_seq_offset _ (Z.to_nat (b - a))).
  apply map_ext. intros k. lia.
Qed.

(** The train ranges of the yielded pairs tile the start of the
    sequence, whatever its length: concatenated in order they are
    [0, 1, ..., m * fs - 1] for the m pairs yielded, with [fs] the fold
    size [int(n / cv)] the code computes (floor(n / cv) below 2^53). *)
Theorem split_train_ranges_tile {A : Type} (self : t) (X : list A)
    (folds : list fold) :
  0 < n_splits self ->
  split self X = Ok folds ->
  exists fs,
    int_truediv (len X) (n_splits self) = Ok fs
    /\ (len X < 2 ^ 53 -> fs = len X / n_splits self)
    /\ 0 < fs
    /\ concat (map fst folds) = arange 0 (Z.of_nat (length folds) * fs)
    /\ Z.of_nat (length folds) * fs <= len X.
Proof.
  intros Hcv Hs.
  destruct (split_ok_fold_size self X folds Hcv Hs) as (fs & Hq & Hpos).
  exists fs. split; [exact Hq|].
  split; [now apply fold_size_bounded|]. split; [exact Hpos|].
  rewrite (split_exact self X fs Hq Hpos) in Hs.
  injection Hs as <-. rewrite length_map, length_range.
  set (k := Z.min _ _).
  pose proof (Z.mul_div_le (len X) fs Hpos) as Hlo.
  assert (Hk : 0 <= Z.of_nat (Z.to_nat k) <= len X / fs).
  { pose proof (Z.div_pos (len X) fs (len_nonneg X) Hpos). unfold k. lia. }
  split; [|nia].
  unfold range. generalize (Z.to_nat k) as m. clear -Hpos.
  intros m. rewrite !map_map. cbn [fst fold_at].
  induction m as [|m IH]; [reflexivity|].
  rewrite seq_S, map_app, concat_app, IH. cbn [map concat Nat.add].
  rewrite app_nil_r. rewrite arange_app by nia. f_equal. lia.
Qed.

Lemma split_train_ranges_tile_witness :
  exists fs,
    int_truediv 100 5 = Ok fs
    /\ arange 0 20 ++ arange 20 40 ++ arange 40 60 ++ arange 60 80 ++ []
       = arange 0 (4 * fs).
Proof.
  assert (Hcv : 0 < n_splits (mk 5 3)) by reflexivity.
  destruct (split_train_ranges_tile (mk 5 3) (repeat tt 100)
              [(arange 0 20, arange 23 40); (arange 20 40, arange 43 60);
               (arange 40 60, arange 63 80); (arange 60 80, arange 83 100)]
              Hcv eq_refl) as (fs & Hq & _ & _ & Ht & _).
  exists fs. split; [exact Hq | exact Ht].
Defined.

End SplitterMore.

(** * Further properties of CumSumFilter *)

Section FilterMore.
Import CumSumFilter.
Open Scope nat_scope.

Lemma within_app (lo mid hi : nat) (l1 l2 : list nat) :
  within lo (S mid) l1 -> within (S mid) hi l2 ->
  lo <= S mid -> S mid <= hi ->
  within lo hi (l1 ++ l2).
Proof.
  intros [S1 B1] [S2 B2] Hlo Hm. split.
  - induction S1 as [|x l1 Hl IH Hx]; [exact S2|].
    cbn [app]. apply Forall_cons_iff in B1. destruct B1 as [Bx B1].
    constructor; [now apply IH|].
    apply Forall_app. split; [exact Hx|].
    eapply Forall_impl; [|exact B2]. cbn. lia.
  - apply Forall_app. split.
    + eapply Forall_impl; [|exact B1]. cbn. lia.
    + eapply Forall_impl; [|exact B2]. cbn. lia.
Qed.

Section AnyCarrier.
Context {T : Type} `{Num T}.
Variable h : T.

(** A step appends nothing, its position, or its position twice. *)
Lemma step_appends (st : acc T) (i : nat) (v : T) :
  exists l,
    events (step h st (i, v)) = events st ++ l
    /\ (l = [] \/ l = [i] \/ l = [i; i]).
Proof.
  unfold step. cbn [s_plus s_minus events].
  destruct (geb (py_max zero (add (s_plus st) v)) h);
    cbn [s_plus s_minus events].
  - destruct (geb (abs zero) h); cbn [events].
    + exists [i; i]. rewrite <- app_assoc. auto.
    + exists [i]. auto.
  - destruct (geb (abs (py_min zero (add (s_minus st) v))) h); cbn [events].
    + exists [i]. auto.
    + exists []. rewrite app_nil_r. auto.
Qed.

(** What the loop appends from position [s] on: positions of the data
    in order, none of them more than twice. *)
Lemma run_from_appends (data : list T) (s : nat) (st : acc T) :
  exists l,
    events (run_from h s data st) = events st ++ l
    /\ within s (s + length data) l
    /\ length l <= 2 * length data
    /\ (forall i, count_occ Nat.eq_dec l i <= 2).
Proof.
  revert s st. induction data as [|v data IH]; intros s st.
  - exists []. unfold run_from. cbn. rewrite app_nil_r.
    repeat split; try (cbn; lia); constructor.
  - unfold run_from. cbn [length seq combine fold_left].
    fold (run_from h (S s) data (step h st (s, v))).
    destruct (IH (S s) (step h st (s, v))) as (l2 & E2 & W2 & L2 & C2).
    destruct (step_appends st s v) as (l1 & E1 & Hl1).
    exists (l1 ++ l2). rewrite E2, E1, <- app_assoc.
    split; [reflexivity|]. split; [|split].
    + apply (within_app s s); [| |lia|lia].
      * destruct Hl1 as [-> | [-> | ->]]; split; repeat constructor; lia.
      * replace (s + S (length data)) with (S s + length data) by lia.
        exact W2.
    + rewrite length_app. cbn [length].
      destruct Hl1 as [-> | [-> | ->]]; cbn [length]; lia.
    + intros i. rewrite count_occ_app.
      destruct (Nat.eq_dec i s) as [-> | Hne].
      * assert (H2 : count_occ Nat.eq_dec l2 s = 0).
        { apply count_occ_not_In. intros Hin. destruct W2 as [_ B2].
          pose proof (proj1 (Forall_forall _ _) B2 _ Hin) as Hb.
          cbn in Hb. lia. }
        rewrite H2.
        destruct Hl1 as [-> | [-> | ->]]; cbn [count_occ];
          destruct (Nat.eq_dec s s); lia.
      * assert (H1 : count_occ Nat.eq_dec l1 i = 0).
        { apply count_occ_not_In. intros Hin.
          destruct Hl1 as [-> | [-> | ->]]; cbn in Hin;
            intuition congruence. }
        rewrite H1. apply C2.
Qed.

(** The loop on [d1 ++ d2] is the loop on [d2] continued from the state
    the loop on [d1] ends in. *)
Lemma run_app (d1 d2 : list T) :
  run h (d1 ++ d2) = run_from h (length d1) d2 (run h d1).
Proof.
  unfold run, run_from, enumerate.
  rewrite length_app, seq_app, <- fold_left_app. f_equal.
  cbn [Nat.add].
  generalize (seq (length d1) (length d2)) as l2.
  generalize 0 as s. induction d1 as [|x d1 IH]; intros s l2; [reflexivity|].
  cbn [length seq app combine]. f_equal. apply IH.
Qed.

Lemma take_in_range {A : Type} (xs : list A) (idx : list nat) (d : A) :
  Forall (fun i => i < length xs) idx ->
  take xs idx = Ok (map (fun i => nth i xs d) idx).
Proof.
  induction 1 as [|i idx Hi _ IH]; [reflexivity|].
  cbn [take map]. destruct (nth_error xs i) as [x|] eqn:E.
  - rewrite IH. cbn [bind]. now rewrite (nth_error_nth _ _ d E).
  - apply nth_error_None in E. lia.
Qed.

End AnyCarrier.

(** Whatever the threshold and the numbers (any carrier, so also NaN
    and infinities), the list [filter()] returns is non-decreasing, holds
    only positions of the input, holds no position more than twice (so at
    most two entries per input value in all), and is empty for an empty
    input. *)
Theorem filter_events_in_range {T : Type} `{Num T} (self : CumSumFilter.t T) :
  let ev := snd (filter self) in
  StronglySorted le ev
  /\ Forall (fun i => i < length (_data self)) ev
  /\ (forall i, count_occ Nat.eq_dec ev i <= 2)
  /\ length ev <= 2 * length (_data self)
  /\ (_data self = [] -> ev = []).
Proof.
  intros ev. unfold ev, filter. cbn [snd]. rewrite run_is_run_from.
  destruct (run_from_appends (_h self) (_data self) 0
              {| s_plus := zero; s_minus := zero; events := [] |})
    as (l & -> & [Hs Hb] & Hl & Hc).
  cbn [events app]. split; [exact Hs|]. split.
  - eapply Forall_impl; [|exact Hb]. cbn. lia.
  - split; [exact Hc|].
    split; [exact Hl|]. intros E. rewrite E in Hl. cbn in Hl.
    destruct l; [reflexivity | cbn in Hl; lia].
Qed.

(** After [filter()], [filtered_events] does not raise: it returns one
    value per event, the input value at that position. *)
Theorem filtered_events_after_filter {T : Type} `{Num T}
    (self : CumSumFilter.t T) (d : T) :
  let self' := fst (filter self) in
  filtered_events self'
  = Ok (map (fun i => nth i (_data self) d) (snd (filter self)))
  /\ events_index self' = Ok (snd (filter self))
  /\ _data self' = _data self /\ _h self' = _h self
  /\ _index self' = _index self.
Proof.
  intros self'. split; [|repeat split].
  unfold self', filtered_events, filter. cbn [fst snd _data _events].
  apply take_in_range. rewrite run_is_run_from.
  destruct (run_from_appends (_h self) (_data self) 0
              {| s_plus := zero; s_minus := zero; events := [] |})
    as (l & -> & [_ Hb] & _).
  cbn [events app]. eapply Forall_impl; [|exact Hb]. cbn. lia.
Qed.

(** The filter looks at no later value: the events found on a sequence
    are a prefix of the events found on any extension of it, and the
    further events are positions of the extension. *)
Theorem filter_events_prefix {T : Type} `{Num T} (h : T) (d1 d2 : list T)
    (idx : option (list label)) (ev1 ev2 : list nat) :
  exists l,
    snd (filter (mk idx (d1 ++ d2) h ev1))
    = snd (filter (mk idx d1 h ev2)) ++ l
    /\ Forall (fun i => length d1 <= i < length d1 + length d2) l.
Proof.
  unfold filter. cbn [snd _h _data]. rewrite run_app.
  destruct (run_from_appends h d2 (length d1) (run h d1))
    as (l & E & [_ Hb] & _).
  exists l. split; [exact E | exact Hb].
Qed.

Lemma Qle_bool_false (a b : Q) : (b < a)%Q -> Qle_bool a b = false.
Proof.
  intros Hlt. destruct (Qle_bool a b) eqn:E; [|reflexivity].
  apply Qle_bool_iff in E. lra.
Qed.

Lemma Qsum_abs_nonneg (data : list Q) : (0 <= Qsum_abs data)%Q.
Proof.
  induction data as [|v data IH]; [cbn; lra|].
  cbn [Qsum_abs fold_right]. fold (Qsum_abs data).
  pose proof (Qabs_nonneg v). lra.
Qed.

Lemma Q_run_from_quiet (h : Q) (data : list Q) (s : nat) (st : acc Q)
    (a : Q) :
  (0 <= s_plus st <= a)%Q -> (- a <= s_minus st <= 0)%Q ->
  (a + Qsum_abs data < h)%Q ->
  events (run_from h s data st) = events st.
Proof.
  revert s st a. induction data as [|v data IH]; intros s st a Hp Hm Hh;
    [reflexivity|].
  unfold run_from. cbn [length seq combine fold_left].
  fold (run_from h (S s) data (step h st (s, v))).
  cbn [Qsum_abs fold_right] in Hh. fold (Qsum_abs data) in Hh.
  pose proof (Qsum_abs_nonneg data) as Hd.
  pose proof (Qle_Qabs v) as Hv1.
  pose proof (Qle_Qabs (- v)) as Hv2. rewrite Qabs_opp in Hv2.
  set (p := py_max zero (add (s_plus st) v)).
  set (m := py_min zero (add (s_minus st) v)).
  assert (Hp' : (0 <= p <= a + Qabs v)%Q).
  { unfold p, py_max. cbn [ltb add zero Q_Num]. unfold Qlt_bool.
    destruct (Qle_bool (s_plus st + v) 0) eqn:E; cbn [negb].
    - lra.
    - assert (~ (s_plus st + v <= 0)%Q)
        by (intros Hle; apply Qle_bool_iff in Hle; congruence).
      lra. }
  assert (Hm' : (- (a + Qabs v) <= m <= 0)%Q).
  { unfold m, py_min. cbn [ltb add zero Q_Num]. unfold Qlt_bool.
    destruct (Qle_bool 0 (s_minus st + v)) eqn:E; cbn [negb].
    - lra.
    - assert (~ (0 <= s_minus st + v)%Q)
        by (intros Hle; apply Qle_bool_iff in Hle; congruence).
      lra. }
  assert (Hstep : step h st (s, v)
                  = {| s_plus := p; s_minus := m; events := events st |}).
  { unfold step. cbn [s_plus s_minus events]. fold p m.
    unfold geb. cbn [leb abs Q_Num].
    rewrite (Qle_bool_false h p) by lra. cbn [s_minus].
    rewrite (Qle_bool_false h (Qabs m)); [reflexivity|].
    rewrite (Qabs_neg m) by lra. lra. }
  rewrite Hstep. rewrite (IH (S s) _ (a + Qabs v)%Q); cbn [s_plus s_minus events];
    try assumption; try reflexivity. lra.
Qed.

(** In exact arithmetic, a sequence whose absolute values sum to less
    than a threshold h produces no event. *)
Theorem filter_quiet_below_threshold (self : CumSumFilter.t Q) :
  (Qsum_abs (_data self) < _h self)%Q ->
  snd (filter self) = [] /\ _events (fst (filter self)) = [].
Proof.
  intros Hh. assert (E : snd (filter self) = []).
  { unfold filter. cbn [snd]. rewrite run_is_run_from.
    rewrite (Q_run_from_quiet (_h self) (_data self) 0 _ 0%Q);
      cbn [s_plus s_minus events zero Q_Num]; try reflexivity; lra. }
  split; [exact E | exact E].
Qed.

Lemma filter_quiet_below_threshold_witness :
  snd (filter (mk None [1 # 10; - (1 # 10); 1 # 20]%Q (3 # 10)%Q [])) = [].
Proof.
  assert (Hh : (Qsum_abs (_data (mk None [1 # 10; - (1 # 10); 1 # 20]%Q
                                     (3 # 10)%Q []))
                < _h (mk None [1 # 10; - (1 # 10); 1 # 20]%Q (3 # 10)%Q []))%Q)
    by reflexivity.
  exact (proj1 (filter_quiet_below_threshold
                  (mk None [1 # 10; - (1 # 10); 1 # 20]%Q (3 # 10)%Q []) Hh)).
Defined.

Lemma float_step_zero (h : float) (ev : list nat) (i : nat) (v : float) :
  (0 <? h)%float = true -> float_is_zero v ->
  step h {| s_plus := zero; s_minus := zero; events := ev |} (i, v)
  = {| s_plus := zero; s_minus := zero; events := ev |}.
Proof.
  intros Hh Hv. pose proof (float_pos_not_le_zero h Hh) as Hle.
  unfold step. cbn [s_plus s_minus events].
  assert (Ep : py_max zero (add zero v) = 0%float)
    by (destruct Hv as [-> | ->]; reflexivity).
  assert (Em : abs (py_min zero (add zero v)) = 0%float)
    by (destruct Hv as [-> | ->]; reflexivity).
  assert (Em' : py_min zero (add zero v) = 0%float)
    by (destruct Hv as [-> | ->]; reflexivity).
  rewrite Ep. unfold geb. cbn [leb float_Num]. rewrite Hle.
  cbn [s_minus]. rewrite Em, Hle, Em'. reflexivity.
Qed.

(** On a sequence of zeros (of either sign) and a positive threshold,
    [filter()] returns no event. *)
Theorem filter_zero_sequence (self : CumSumFilter.t float) :
  (0 <? _h self)%float = true ->
  Forall float_is_zero (_data self) ->
  snd (filter self) = [].
Proof.
  intros Hh Hz. unfold filter. cbn [snd]. rewrite run_is_run_from.
  generalize 0 as s. unfold run_from.
  induction Hz as [|v data Hv _ IH]; intros s; [reflexivity|].
  cbn [length seq combine fold_left].
  rewrite (float_step_zero _ _ _ _ Hh Hv). apply IH.
Qed.

Lemma filter_zero_sequence_witness :
  snd (filter (mk None [0; -0; 0]%float 0.3%float [7%nat])) = [].
Proof.
  assert (Hh : (0 <? _h (mk None [0; -0; 0]%float 0.3%float [7%nat]))%float = true)
    by reflexivity.
  assert (Hz : Forall float_is_zero
                      (_data (mk None [0; -0; 0]%float 0.3%float [7%nat]))).
  { cbn [_data]. apply Forall_cons; [left; reflexivity|].
    apply Forall_cons; [right; reflexivity|].
    apply Forall_cons; [left; reflexivity | apply Forall_nil]. }
  exact (filter_zero_sequence (mk None [0; -0; 0]%float 0.3%float [7%nat]) Hh Hz).
Defined.

(** Construction: [__init__] raises [ValueError] exactly for an input
    that is no array, Series or DataFrame, or a DataFrame whose number of
    columns is not 1, and raises nothing else. The [index] accessor of
    the object built raises [KeyError] exactly when the input was a bare
    array, returns the labels given otherwise, and [filter()] does not
    change that. *)
Theorem init_and_index {T : Type} `{Num T} (log_returns : input T) (h : T) :
  (init log_returns h = Raise ValueError
   <-> log_returns = Other
       \/ exists idx cols, log_returns = DataFrame idx cols
                           /\ length cols <> 1)
  /\ (forall e, init log_returns h = Raise e -> e = ValueError)
  /\ (forall self, init log_returns h = Ok self ->
        _h self = h /\ _events self = []
        /\ (index self = Raise KeyError
            <-> exists vs, log_returns = NdArray vs)
        /\ (forall idx, index self = Ok idx
            <-> (exists vs, log_returns = Series idx vs)
                \/ (exists vs, log_returns = DataFrame idx [vs]))
        /\ index (fst (filter self)) = index self).
Proof.
  destruct log_returns as [vs | idx vs | idx cols |]; cbn [init].
  - split; [|split].
    + split; [discriminate | intros [E | (i & c & E & _)]; discriminate].
    + discriminate.
    + intros self [= <-]. cbn. repeat split; try discriminate.
      * intros _. now exists vs.
      * intros [[v E] | [v E]]; discriminate.
  - split; [|split].
    + split; [discriminate | intros [E | (i & c & E & _)]; discriminate].
    + discriminate.
    + intros self [= <-]. cbn. repeat split; try discriminate.
      * intros [v E]. discriminate.
      * intros [= <-]. left. now exists vs.
      * intros [[v [= -> _]] | [v E]]; [reflexivity | discriminate].
  - destruct cols as [|c [|c' cols]].
    + split; [|split].
      * split; [intros _; right; exists idx, []; split; [reflexivity | discriminate]
               | reflexivity].
      * intros e [= <-]. reflexivity.
      * discriminate.
    + split; [|split].
      * split; [discriminate|].
        intros [E | (i & c0 & [= _ <-] & Hl)]; [discriminate|].
        cbn in Hl. congruence.
      * discriminate.
      * intros self [= <-]. cbn. repeat split; try discriminate.
        -- intros [v E]. discriminate.
        -- intros [= <-]. right. now exists c.
        -- intros [[v E] | [v [= -> _]]]; [discriminate | reflexivity].
    + split; [|split].
      * split; [|reflexivity]. intros _. right.
        exists idx, (c :: c' :: cols). split; [reflexivity|]. cbn. lia.
      * intros e [= <-]. reflexivity.
      * discriminate.
  - split; [|split].
    + split; [intros _; now left | reflexivity].
    + intros e [= <-]. reflexivity.
    + discriminate.
Qed.

End FilterMore.

(** * Further properties of ETFTrick *)

Section EtfMore.
Import ETFTrick.
Open Scope nat_scope.

Section AnyCarrier.
Context {T : Type} `{Num T}.

Lemma init_unpacked (prices : prices_input T) (weights : weights_input T)
    (nw : bool) (rows : matrix T) (n : nat) (ws : list T) :
  prices_shape prices = Some (rows, n) ->
  weights_values weights = Some ws ->
  exists k names idx,
    init prices weights nw = init_checked k rows n names idx ws nw
    /\ (k = KDataFrame <-> exists i c, prices = PricesDataFrame i c rows)
    /\ (forall i c, prices = PricesDataFrame i c rows ->
        names = Some c /\ idx = Some i)
    /\ (k = KNdArray -> names = None /\ idx = None).
Proof.
  intros Hp Hw.
  destruct prices as [ncols r | i c r |]; [| |discriminate];
    injection Hp as <- <-;
    destruct weights as [w | wi w |]; try discriminate;
    injection Hw as <-; cbn [init].
  1,2: exists KNdArray, None, None; split; [reflexivity|];
    split; [split; [discriminate | intros (? & ? & E); discriminate]|];
    split; [intros ? ? E; discriminate | auto].
  all: exists KDataFrame, (Some c), (Some i); split; [reflexivity|];
    split; [split; [intros _; now exists i, c | reflexivity]|];
    split; [intros ? ? [= -> ->]; auto | discriminate].
Qed.

End AnyCarrier.

(** Construction from prices that are a 2-D array, a DataFrame or an
    object of another type, and weights that are a 1-D array, a Series or
    an object of another type: it fails with [ValueError] exactly when
    the prices are no array or DataFrame, the weights no array or Series,
    or the number of weights differs from the number of price columns; it
    raises nothing else, and otherwise stores the price rows and as many
    weights as given. *)
Theorem etf_init_outcome {T : Type} `{Num T} (prices : prices_input T)
    (weights : weights_input T) (nw : bool) :
  (init prices weights nw = Raise ValueError
   <-> prices_shape prices = None
       \/ weights_values weights = None
       \/ exists rows n ws,
            prices_shape prices = Some (rows, n)
            /\ weights_values weights = Some ws /\ length ws <> n)
  /\ (forall e, init prices weights nw = Raise e -> e = ValueError)
  /\ (forall self warns,
        init prices weights nw = Ok (self, warns) ->
        exists rows ws,
          prices_shape prices = Some (rows, length ws)
          /\ weights_values weights = Some ws
          /\ _prices self = rows /\ _ncols self = length ws
          /\ length (_weights self) = length ws).
Proof.
  destruct (prices_shape prices) as [[rows n]|] eqn:Hp.
  2:{ destruct prices; try discriminate. cbn [init].
      split; [split; [intros _; now left | reflexivity]|].
      split; [intros e [= <-]; reflexivity | discriminate]. }
  destruct (weights_values weights) as [ws|] eqn:Hw.
  2:{ destruct weights; try discriminate.
      assert (E : init prices WeightsOther nw = Raise ValueError)
        by (destruct prices; reflexivity).
      rewrite E.
      split; [split; [intros _; right; now left | reflexivity]|].
      split; [intros e [= <-]; reflexivity | discriminate]. }
  destruct (init_unpacked prices weights nw rows n ws Hp Hw)
    as (k & names & idx & -> & _).
  unfold init_checked.
  destruct (Nat.eqb_spec (length ws) n) as [E|NE]; cbn [negb].
  - split; [|split].
    + split.
      * destruct (negb (isclose (sum ws) one)); [destruct nw|]; discriminate.
      * intros [E'|[E'|(r & m & w & [= _ <-] & [= <-] & Hne)]];
          try discriminate. contradiction.
    + destruct (negb (isclose (sum ws) one)); [destruct nw|]; discriminate.
    + intros self warns Hi. exists rows, ws. subst n.
      destruct (negb (isclose (sum ws) one)); [destruct nw|];
        injection Hi as <- <-; cbn; rewrite ?length_map; repeat split.
  - split; [|split].
    + split; [|reflexivity]. intros _. right; right. now exists rows, n, ws.
    + intros e [= <-]. reflexivity.
    + discriminate.
Qed.





Section Shapes.
Context {T : Type} `{Num T}.

Lemma nth_tl {A : Type} (l : list A) (t : nat) (d : A) :
  nth t (tl l) d = nth (S t) l d.
Proof. destruct l; [now destruct t | reflexivity]. Qed.

Lemma nth_removelast {A : Type} (l : list A) (t : nat) (d : A) :
  S t < length l -> nth t (removelast l) d = nth t l d.
Proof.
  intros Ht. rewrite removelast_firstn_len, nth_firstn.
  destruct (Nat.ltb_spec t (pred (length l))); [reflexivity | lia].
Qed.

(** Entry by entry, [prices[1:] / prices[:-1] - 1]. *)
Lemma simple_returns_nth (N : nat) (prices : matrix T) (d : T) (t n : nat) :
  rectangular N prices -> S t < length prices -> n < N ->
  nth n (nth t (simple_returns prices) []) d
  = sub (div (nth n (nth (S t) prices []) d) (nth n (nth t prices []) d)) one.
Proof.
  intros Hp Ht Hn. unfold simple_returns.
  assert (Hl1 : length (tl prices) = pred (length prices))
    by (destruct prices; reflexivity).
  assert (Hl2 : length (removelast prices) = pred (length prices)).
  { rewrite removelast_firstn_len, length_firstn. lia. }
  rewrite (map_nth_in _ _ [] ([], []))
    by (rewrite length_combine; lia).
  rewrite combine_nth by congruence. cbn [fst snd].
  rewrite nth_tl, nth_removelast by exact Ht.
  assert (Hrow : forall k, k < length prices -> length (nth k prices []) = N).
  { intros k Hk. exact (proj1 (Forall_forall _ _) Hp _ (nth_In _ [] Hk)). }
  apply (map2_nth (fun p q => sub (div p q) one)); rewrite Hrow; lia.
Qed.

End Shapes.

(** Shapes after [fit()] on a (T, N) price matrix: the returns and the
    cumulative returns have T - 1 rows of N entries, the two ETF series
    have T - 1 entries; with fewer than two price rows all four are
    empty and nothing is raised. *)
Theorem fit_shapes {T : Type} `{Num T} (self : ETFTrick.t T) (N : nat) :
  rectangular N (_prices self) ->
  exists R C E EC,
    _returns (fit self) = Some R
    /\ _cumulative_returns (fit self) = Some C
    /\ _etf_returns (fit self) = Some E
    /\ _etf_cumulative_returns (fit self) = Some EC
    /\ rectangular N R /\ rectangular N C
    /\ length R = pred (length (_prices self))
    /\ length C = pred (length (_prices self))
    /\ length E = pred (length (_prices self))
    /\ length EC = pred (length (_prices self))
    /\ (length (_prices self) <= 1 ->
        R = [] /\ C = [] /\ E = [] /\ EC = []).
Proof.
  intros Hp.
  pose proof (rectangular_simple_returns N _ Hp) as HR.
  pose proof (length_simple_returns (_prices self)) as HlR.
  pose proof (rectangular_plus_one N _ HR) as HR1.
  exists (simple_returns (_prices self)),
    (match _prices_type self with
     | KDataFrame =>
         cumprod_rows_skipna (map plus_one (simple_returns (_prices self)))
     | KNdArray =>
         cumprod_rows (map plus_one (simple_returns (_prices self)))
     end),
    (matvec (simple_returns (_prices self)) (_weights self)),
    (cumprod (plus_one
                (matvec (simple_returns (_prices self)) (_weights self)))).
  split; [reflexivity|]. split; [reflexivity|].
  split; [reflexivity|]. split; [reflexivity|]. split; [exact HR|].
  split.
  { destruct (_prices_type self);
      [now apply rectangular_cumprod_rows
      | now apply rectangular_cumprod_rows_skipna]. }
  split; [exact HlR|].
  split.
  { destruct (_prices_type self);
      [now rewrite length_cumprod_rows, length_map
      | now rewrite length_cumprod_rows_skipna, length_map]. }
  split; [unfold matvec; now rewrite length_map|].
  split; [unfold plus_one, matvec; now rewrite length_cumprod, !length_map|].
  intros Hle.
  assert (E0 : simple_returns (_prices self) = []).
  { destruct (simple_returns (_prices self)); [reflexivity|].
    cbn [length] in HlR. lia. }
  rewrite E0. destruct (_prices_type self); repeat split.
Qed.

Lemma fit_shapes_witness :
  exists R, _returns (fit (mk KNdArray [[1; 2]]%float 2 None None
                             [0.25; 0.75]%float None None None None))
            = Some R /\ R = [].
Proof.
  assert (Hp : rectangular 2 [[1; 2]]%float) by (repeat constructor).
  destruct (fit_shapes (mk KNdArray [[1; 2]]%float 2 None None
                          [0.25; 0.75]%float None None None None) 2 Hp)
    as (R & C & E & EC & HR & _ & _ & _ & _ & _ & _ & _ & _ & _ & He).
  exists R. split; [exact HR|].
  exact (proj1 (He (le_n 1))).
Defined.

(** After [fit()], the return at row t and column n is
    [prices[t+1, n] / prices[t, n] - 1], on any carrier. *)
Theorem fit_returns_entries {T : Type} `{Num T} (self : ETFTrick.t T)
    (N t n : nat) (d : T) :
  rectangular N (_prices self) ->
  S t < length (_prices self) -> n < N ->
  exists R,
    _returns (fit self) = Some R
    /\ nth n (nth t R []) d
       = sub (div (nth n (nth (S t) (_prices self) []) d)
                  (nth n (nth t (_prices self) []) d)) one.
Proof.
  intros Hp Ht Hn. exists (simple_returns (_prices self)).
  split; [reflexivity|]. now apply (simple_returns_nth N).
Qed.

Lemma fit_returns_entries_witness :
  exists R,
    _returns (fit (mk KNdArray [[1; 2]; [2; 3]; [4; 3]]%Q 2 None None
                     [1 / 4; 3 / 4]%Q None None None None)) = Some R
    /\ nth 0 (nth 1 R []) 0%Q = (4 / 2 - 1)%Q.
Proof.
  assert (Hp : rectangular 2 [[1; 2]; [2; 3]; [4; 3]]%Q)
    by (repeat constructor).
  exact (fit_returns_entries
           (mk KNdArray [[1; 2]; [2; 3]; [4; 3]]%Q 2 None None
              [1 / 4; 3 / 4]%Q None None None None) 2 1 0 0%Q Hp
           ltac:(cbn; lia) ltac:(lia)).
Defined.

Lemma Qprod_upto_telescope (q : nat -> Q) (t : nat) :
  (forall k, k <= t -> ~ (q k == 0)%Q) ->
  (prod_upto (fun k => q (S k) / q k - 1 + 1)%Q t == q (S t) / q 0%nat)%Q.
Proof.
  induction t as [|t IH]; intros Hq.
  - cbn [prod_upto]. field. apply Hq. lia.
  - cbn [prod_upto mul Q_Num]. rewrite IH by (intros k Hk; apply Hq; lia).
    field. split; [apply Hq; lia | apply Hq; lia].
Qed.

(** In exact arithmetic the cumulative return telescopes: at row t and
    column n it is [prices[t+1, n] / prices[0, n]], when the prices of
    that column in rows 0..t are not 0. *)
Theorem cumulative_returns_telescope (self : ETFTrick.t Q) (N t n : nat) :
  rectangular N (_prices self) ->
  S t < length (_prices self) -> n < N ->
  (forall k, k <= t -> ~ (nth n (nth k (_prices self) []) 0 == 0)%Q) ->
  exists C,
    _cumulative_returns (fit self) = Some C
    /\ (nth n (nth t C []) 0
        == nth n (nth (S t) (_prices self) []) 0
           / nth n (nth 0%nat (_prices self) []) 0)%Q.
Proof.
  intros Hp Ht Hn Hq.
  destruct (fit_cumulative self N Hp (fun _ => Q_nan_free _))
    as (R & C & E & EC & _ & HC & _ & _ & HRd & _ & _ & _ & _ & Hcum & _).
  exists C. split; [exact HC|].
  assert (HlR : t < length R)
    by (rewrite HRd, length_simple_returns; lia).
  pose proof (Hcum t n HlR Hn) as Hx. cbn [zero add one Q_Num] in Hx.
  rewrite Hx.
  rewrite (prod_upto_ext _
             (fun k => nth n (nth (S k) (_prices self) []) 0
                       / nth n (nth k (_prices self) []) 0 - 1 + 1)%Q).
  - apply (Qprod_upto_telescope
             (fun k => nth n (nth k (_prices self) []) 0%Q)). exact Hq.
  - intros k Hk. rewrite HRd.
    rewrite (simple_returns_nth N) by (try assumption; lia).
    reflexivity.
Qed.

Lemma cumulative_returns_telescope_witness :
  exists C,
    _cumulative_returns
      (fit (mk KNdArray [[1; 2]; [2; 3]; [4; 3]]%Q 2 None None
              [1 / 4; 3 / 4]%Q None None None None)) = Some C
    /\ (nth 0 (nth 1 C []) 0 == 4 / 1)%Q.
Proof.
  assert (Hp : rectangular 2 [[1; 2]; [2; 3]; [4; 3]]%Q)
    by (repeat constructor).
  assert (Hq : forall k, k <= 1 ->
            ~ (nth 0 (nth k [[1; 2]; [2; 3]; [4; 3]]%Q []) 0 == 0)%Q).
  { intros [|[|k]] Hk; [discriminate | discriminate | lia]. }
  exact (cumulative_returns_telescope
           (mk KNdArray [[1; 2]; [2; 3]; [4; 3]]%Q 2 None None
              [1 / 4; 3 / 4]%Q None None None None) 2 1 0 Hp
           ltac:(cbn; lia) ltac:(lia) Hq).
Defined.

Lemma Qfold_left_acc (l : list Q) (a : Q) :
  (fold_left Qplus l a == a + fold_left Qplus l 0)%Q.
Proof.
  revert a. induction l as [|x l IH]; intros a; cbn [fold_left]; [ring|].
  rewrite (IH (a + x)%Q), (IH (0 + x)%Q). ring.
Qed.

Lemma Qdot_equal_entries (r : Q) (row w : list Q) :
  length row = length w ->
  Forall (fun x => x == r)%Q row ->
  (sum (map2 mul row w) == r * sum w)%Q.
Proof.
  unfold sum, map2. cbn [add mul zero Q_Num].
  revert w. induction row as [|x row IH]; intros [|y w] Hl Hr;
    try discriminate; cbn [combine map fold_left fst snd]; [ring|].
  apply Forall_cons_iff in Hr. destruct Hr as [Hx Hr].
  rewrite (Qfold_left_acc _ (0 + x * y)%Q), (Qfold_left_acc w (0 + y)%Q).
  rewrite (IH w) by (try assumption; cbn in Hl; lia).
  rewrite Hx. ring.
Qed.

(** In exact arithmetic, at a row where every asset has the same return
    r, the ETF return is r times the sum of the stored weights (so r
    itself once the weights sum to 1). *)
Theorem etf_return_of_equal_returns (self : ETFTrick.t Q) (N t : nat)
    (r : Q) :
  rectangular N (_prices self) ->
  length (_weights self) = N ->
  S t < length (_prices self) ->
  exists R E,
    _returns (fit self) = Some R
    /\ _etf_returns (fit self) = Some E
    /\ (Forall (fun x => x == r)%Q (nth t R []) ->
        (nth t E 0 == r * sum (_weights self))%Q).
Proof.
  intros Hp Hw Ht.
  exists (simple_returns (_prices self)),
    (matvec (simple_returns (_prices self)) (_weights self)).
  split; [reflexivity|]. split; [reflexivity|]. intros Hr.
  assert (HlR : t < length (simple_returns (_prices self)))
    by (rewrite length_simple_returns; lia).
  unfold matvec.
  rewrite (map_nth_in (fun row => sum (map2 mul row (_weights self)))
             _ 0%Q [] t HlR).
  apply Qdot_equal_entries; [|exact Hr].
  pose proof (rectangular_simple_returns N _ Hp) as HR.
  rewrite Hw. exact (proj1 (Forall_forall _ _) HR _ (nth_In _ [] HlR)).
Qed.

Lemma etf_return_of_equal_returns_witness :
  exists R E,
    _returns (fit (mk KNdArray [[1; 2]; [2; 4]]%Q 2 None None
                     [1 / 4; 3 / 4]%Q None None None None)) = Some R
    /\ _etf_returns (fit (mk KNdArray [[1; 2]; [2; 4]]%Q 2 None None
                            [1 / 4; 3 / 4]%Q None None None None)) = Some E
    /\ (Forall (fun x => x == 1)%Q (nth 0 R []) ->
        (nth 0 E 0 == 1 * sum [1 / 4; 3 / 4])%Q).
Proof.
  assert (Hp : rectangular 2 [[1; 2]; [2; 4]]%Q) by (repeat constructor).
  exact (etf_return_of_equal_returns
           (mk KNdArray [[1; 2]; [2; 4]]%Q 2 None None
              [1 / 4; 3 / 4]%Q None None None None) 2 0 1%Q Hp
           eq_refl ltac:(cbn; lia)).
Defined.

End EtfMore.
